(** * Huffman compressor: a shallow embedding of [huffman_tree.py] and
    [huffman_compressor.py], and the properties of the compression engine.

    Conventions of the embedding.
    - A Python [str] is a [list ascii]; a one-character string is an [ascii].
    - A Python [int] is a [Z]. A Python [float] is an IEEE 754 binary64
      number, written as a [spec_float] of the standard library at precision
      53 and exponent bound 1024, with its operations rounded to nearest,
      ties to even; [int / int] is the correctly rounded quotient of the two
      integers, as in Python. The [OverflowError] of a quotient beyond the
      range of the doubles is not modelled: it needs an operand of 1024 bits,
      and the integers divided here are lengths.
    - A Python [dict] is an association list in insertion order, because
      [construir_desde_frecuencias] iterates over [frecuencias.items()] and
      the order of that iteration decides the shape of the heap.
    - A Python [list] used as an array is a [list] read with [!!] and written
      with [<[i:=x]>]; an index out of range raises [IndexError].
    - A call that can raise returns a [Resultado]; a method that mutates
      [self] is a function in the state-and-exception monad [M]. *)

From Stdlib Require Import ZArith Lia Ascii SpecFloat.
From stdpp Require Import base list strings.

Local Open Scope Z_scope.
Local Open Scope list_scope.

(** ** Exceptions and results *)

Inductive Excepcion : Type :=
| ValueError
| IndexError
| KeyError
| AttributeError
| SinCombustible.  (* the bound of a loop of the model was reached; the
                      theorems show it never is *)

Inductive Resultado (A : Type) : Type :=
| Ok (a : A)
| Raise (e : Excepcion).
Arguments Ok {A} a.
Arguments Raise {A} e.

Definition rbind {A B} (m : Resultado A) (k : A -> Resultado B) : Resultado B :=
  match m with
  | Ok a => k a
  | Raise e => Raise e
  end.

#[global] Instance resultado_ret : MRet Resultado := fun A a => Ok a.
#[global] Instance resultado_bind : MBind Resultado := fun A B k m => rbind m k.

(** The state-and-exception monad of a method of an object of type [S]:
    the state reached is returned also when the call raises, as the
    attributes assigned before a [raise] stay assigned in Python. *)
Definition M (S A : Type) : Type := S -> Resultado A * S.

Definition mret {S A} (a : A) : M S A := fun s => (Ok a, s).
Definition mraise {S A} (e : Excepcion) : M S A := fun s => (Raise e, s).
Definition mbindM {S A B} (m : M S A) (k : A -> M S B) : M S B :=
  fun s => match m s with
           | (Ok a, s') => k a s'
           | (Raise e, s') => (Raise e, s')
           end.
Definition mget {S} : M S S := fun s => (Ok s, s).
Definition mput {S} (s : S) : M S unit := fun _ => (Ok tt, s).
Definition mlift {S A} (r : Resultado A) : M S A := fun s => (r, s).

#[global] Instance M_ret {S} : MRet (M S) := fun A a => mret a.
#[global] Instance M_bind {S} : MBind (M S) := fun A B k m => mbindM m k.

(** ** Python values and dictionaries *)

Definition str : Type := list ascii.

(** Python floats: binary64. *)
Abbreviation float64 := spec_float.

(** [float(z)] for an integer, correctly rounded. *)
Definition float_de_Z (z : Z) : float64 := binary_normalize 53 1024 z 0 false.

(** An integer as a floating-point number with an unrounded mantissa. *)
Definition entero_exacto (z : Z) : spec_float :=
  match z with
  | Z0 => S754_zero false
  | Zpos p => S754_finite false p 0
  | Zneg p => S754_finite true p 0
  end.

(** [a / b] for two integers: the nearest double to the quotient. The
    source divides only by integers it has tested to be positive and by
    constants. *)
Definition div_enteros (a b : Z) : float64 :=
  SFdiv 53 1024 (entero_exacto a) (entero_exacto b).

(** [x * y], [x / y], [x - y], [abs(x)] and [x < y] for two floats. *)
Definition fmul (x y : float64) : float64 := SFmul 53 1024 x y.
Definition fdiv (x y : float64) : float64 := SFdiv 53 1024 x y.
Definition fsub (x y : float64) : float64 := SFsub 53 1024 x y.
Definition fabs (x : float64) : float64 := SFabs x.
Definition fltb (x y : float64) : bool := SFltb x y.

Definition float64_a_Z (x : float64) : option Z := None.

Declare Scope float64_scope.
Delimit Scope float64_scope with float64.
Bind Scope float64_scope with spec_float.
Number Notation spec_float float_de_Z float64_a_Z : float64_scope.
Infix "-" := fsub : float64_scope.
Infix "*" := fmul : float64_scope.
Infix "/" := fdiv : float64_scope.

Inductive Valor : Type :=
| VInt (z : Z)
| VFloat (f : float64)
| VBool (b : bool).

Section Dict.
Context {K V : Type} `{EqDecision K}.

Definition dict : Type := list (K * V).

(** [d.get(k)] *)
Fixpoint dict_get (d : dict) (k : K) : option V :=
  match d with
  | [] => None
  | (k', v) :: d' => if decide (k' = k) then Some v else dict_get d' k
  end.

(** [d[k] = v]: a present key keeps its position, a new key goes last. *)
Fixpoint dict_set (d : dict) (k : K) (v : V) : dict :=
  match d with
  | [] => [(k, v)]
  | (k', v') :: d' =>
      if decide (k' = k) then (k', v) :: d' else (k', v') :: dict_set d' k v
  end.

(** [d[k]], which raises [KeyError] on an absent key. *)
Definition dict_item (d : dict) (k : K) : Resultado V :=
  match dict_get d k with
  | Some v => Ok v
  | None => Raise KeyError
  end.

(** [d.update(e)] *)
Definition dict_update (d e : dict) : dict :=
  fold_left (fun acc kv => dict_set acc kv.1 kv.2) e d.

Definition dict_keys (d : dict) : list K := d.*1.
Definition dict_values (d : dict) : list V := d.*2.
End Dict.
Arguments dict : clear implicits.

(** ** [NodoHuffman] *)

Unset Elimination Schemes.
Inductive NodoHuffman : Type :=
| Nodo (caracter : option ascii) (frecuencia : Z)
       (izquierdo derecho : option NodoHuffman).
Set Elimination Schemes.

Definition caracter (n : NodoHuffman) : option ascii :=
  match n with Nodo c _ _ _ => c end.
Definition frecuencia (n : NodoHuffman) : Z :=
  match n with Nodo _ f _ _ => f end.
Definition izquierdo (n : NodoHuffman) : option NodoHuffman :=
  match n with Nodo _ _ l _ => l end.
Definition derecho (n : NodoHuffman) : option NodoHuffman :=
  match n with Nodo _ _ _ r => r end.

(** [NodoHuffman(caracter, frecuencia)] and
    [NodoHuffman(frecuencia=f, izquierdo=l, derecho=r)] *)
Definition nodo_hoja (c : ascii) (f : Z) : NodoHuffman := Nodo (Some c) f None None.
Definition nodo_padre (f : Z) (l r : NodoHuffman) : NodoHuffman :=
  Nodo None f (Some l) (Some r).

(** [__lt__]: the frequencies alone are compared. *)
Definition nodo_lt (a b : NodoHuffman) : bool := frecuencia a <? frecuencia b.

(** [es_hoja]: the node holds a character. Where the source tests
    [n.es_hoja()] and then reads [n.caracter], the embedding matches on
    [caracter n], which does both. *)
Definition es_hoja (n : NodoHuffman) : bool :=
  match caracter n with Some _ => true | None => false end.

(** ** [heapq] on a Python list of nodes

    [heappush] and [heappop] of the Python standard library, after
    [Lib/heapq.py]: the item that moves is held aside while parents (or
    children) are copied into the hole, and it is written back at the end.
    The only comparison is [<], which is [__lt__] of the nodes. Each loop
    carries a bound on its number of passes ([pos] for [_siftdown], the
    length of the heap for [_siftup]); [siftdown_loop_ok] and
    [siftup_loop_ok] show that the bound is never reached. *)

Module heapq.

(** [heap[i]] *)
Definition leer (heap : list NodoHuffman) (i : nat) : Resultado NodoHuffman :=
  match heap !! i with
  | Some x => Ok x
  | None => Raise IndexError
  end.

(** [heap[i] = x] *)
Definition asignar (heap : list NodoHuffman) (i : nat) (x : NodoHuffman)
  : Resultado (list NodoHuffman) :=
  if decide (i < length heap)%nat then Ok (<[i:=x]> heap) else Raise IndexError.

(** The loop of [_siftdown]: parents are moved down until [newitem] fits. *)
Fixpoint siftdown_loop (fuel : nat) (heap : list NodoHuffman)
         (startpos pos : nat) (newitem : NodoHuffman)
  : Resultado (list NodoHuffman * nat) :=
  if decide (startpos < pos)%nat then
    match fuel with
    | O => Raise SinCombustible
    | S fuel' =>
        let parentpos := ((pos - 1) / 2)%nat in
        parent ← leer heap parentpos;
        if nodo_lt newitem parent then
          heap ← asignar heap pos parent;
          siftdown_loop fuel' heap startpos parentpos newitem
        else Ok (heap, pos)
    end
  else Ok (heap, pos).

Definition _siftdown (heap : list NodoHuffman) (startpos pos : nat)
  : Resultado (list NodoHuffman) :=
  newitem ← leer heap pos;
  '(heap, pos) ← siftdown_loop pos heap startpos pos newitem;
  asignar heap pos newitem.

(** The loop of [_siftup]: the smaller child is moved up until a leaf
    position is reached; on a tie the right child is chosen. *)
Fixpoint siftup_loop (fuel : nat) (heap : list NodoHuffman)
         (endpos pos childpos : nat) : Resultado (list NodoHuffman * nat) :=
  if decide (childpos < endpos)%nat then
    match fuel with
    | O => Raise SinCombustible
    | S fuel' =>
        let rightpos := (childpos + 1)%nat in
        childpos ←
          (if decide (rightpos < endpos)%nat then
             l ← leer heap childpos;
             r ← leer heap rightpos;
             Ok (if negb (nodo_lt l r) then rightpos else childpos)
           else Ok childpos);
        child ← leer heap childpos;
        heap ← asignar heap pos child;
        siftup_loop fuel' heap endpos childpos (2 * childpos + 1)%nat
    end
  else Ok (heap, pos).

Definition _siftup (heap : list NodoHuffman) (pos : nat)
  : Resultado (list NodoHuffman) :=
  let endpos := length heap in
  let startpos := pos in
  newitem ← leer heap pos;
  '(heap, pos) ← siftup_loop endpos heap endpos pos (2 * pos + 1)%nat;
  heap ← asignar heap pos newitem;
  _siftdown heap startpos pos.

Definition heappush (heap : list NodoHuffman) (item : NodoHuffman)
  : Resultado (list NodoHuffman) :=
  let heap := heap ++ [item] in
  _siftdown heap 0 (length heap - 1).

(** [heap.pop()]: the last element and the list without it. *)
Definition pop (heap : list NodoHuffman)
  : Resultado (NodoHuffman * list NodoHuffman) :=
  match last heap with
  | Some x => Ok (x, take (length heap - 1) heap)
  | None => Raise IndexError
  end.

Definition heappop (heap : list NodoHuffman)
  : Resultado (NodoHuffman * list NodoHuffman) :=
  '(lastelt, heap) ← pop heap;
  match heap with
  | [] => Ok (lastelt, heap)
  | _ :: _ =>
      returnitem ← leer heap 0;
      heap ← asignar heap 0 lastelt;
      heap ← _siftup heap 0;
      Ok (returnitem, heap)
  end.

End heapq.

(** ** [ArbolHuffman] *)

Record ArbolHuffman : Type := mkArbol {
  raiz : option NodoHuffman;
  codigos : dict ascii str;
}.

(** [ArbolHuffman()] *)
Definition arbol_vacio : ArbolHuffman := {| raiz := None; codigos := [] |}.

Definition set_raiz (r : option NodoHuffman) : M ArbolHuffman unit :=
  fun self => (Ok tt, {| raiz := r; codigos := codigos self |}).
Definition set_codigos (d : dict ascii str) : M ArbolHuffman unit :=
  fun self => (Ok tt, {| raiz := raiz self; codigos := d |}).

(** [for caracter, frecuencia in frecuencias.items(): heappush(heap, nodo)] *)
Fixpoint insertar_hojas (items : list (ascii * Z)) (heap : list NodoHuffman)
  : Resultado (list NodoHuffman) :=
  match items with
  | [] => Ok heap
  | (c, f) :: items' =>
      heap ← heapq.heappush heap (nodo_hoja c f);
      insertar_hojas items' heap
  end.

(** [while len(heap) > 1: ...] *)
Fixpoint combinar (fuel : nat) (heap : list NodoHuffman)
  : Resultado (list NodoHuffman) :=
  if decide (1 < length heap)%nat then
    match fuel with
    | O => Raise SinCombustible
    | S fuel' =>
        '(izq, heap) ← heapq.heappop heap;
        '(der, heap) ← heapq.heappop heap;
        let padre := nodo_padre (frecuencia izq + frecuencia der) izq der in
        heap ← heapq.heappush heap padre;
        combinar fuel' heap
    end
  else Ok heap.

Definition construir_desde_frecuencias (frecuencias : dict ascii Z)
  : M ArbolHuffman unit :=
  match frecuencias with
  | [] => mraise ValueError
  | _ :: _ =>
      if decide (length frecuencias = 1%nat) then
        caracter ← mlift (match dict_keys frecuencias !! 0%nat with
                          | Some c => Ok c
                          | None => Raise IndexError
                          end);
        f ← mlift (dict_item frecuencias caracter);
        set_raiz (Some (nodo_hoja caracter f))
      else
        heap ← mlift (insertar_hojas frecuencias []);
        heap ← mlift (combinar (length heap) heap);
        r ← mlift (heapq.leer heap 0);
        set_raiz (Some r)
  end.

Fixpoint _generar_codigos_recursivo (nodo : NodoHuffman) (codigo : str)
         (codigos : dict ascii str) : dict ascii str :=
  match nodo with
  | Nodo (Some c) _ _ _ => dict_set codigos c codigo
  | Nodo None _ izq der =>
      let codigos :=
        match izq with
        | Some l => _generar_codigos_recursivo l (codigo ++ ["0"%char]) codigos
        | None => codigos
        end in
      match der with
      | Some r => _generar_codigos_recursivo r (codigo ++ ["1"%char]) codigos
      | None => codigos
      end
  end.

Definition generar_codigos : M ArbolHuffman (dict ascii str) :=
  fun self =>
    match raiz self with
    | None => (Ok [], self)
    | Some r =>
        let self := {| raiz := raiz self; codigos := [] |} in
        match caracter r with
        | Some c =>
            let self := {| raiz := raiz self;
                           codigos := dict_set (codigos self) c ["0"%char] |} in
            (Ok (codigos self), self)
        | None =>
            let self := {| raiz := raiz self;
                           codigos := _generar_codigos_recursivo r [] (codigos self) |} in
            (Ok (codigos self), self)
        end
    end.

Fixpoint _calcular_altura (nodo : NodoHuffman) : Z :=
  match nodo with
  | Nodo (Some _) _ _ _ => 0
  | Nodo None _ izq der =>
      let altura_izq := match izq with Some l => _calcular_altura l | None => 0 end in
      let altura_der := match der with Some r => _calcular_altura r | None => 0 end in
      1 + Z.max altura_izq altura_der
  end.

Fixpoint _contar_hojas (nodo : NodoHuffman) : Z :=
  match nodo with
  | Nodo (Some _) _ _ _ => 1
  | Nodo None _ izq der =>
      match izq with Some l => _contar_hojas l | None => 0 end
      + match der with Some r => _contar_hojas r | None => 0 end
  end.

Fixpoint _contar_nodos_internos (nodo : NodoHuffman) : Z :=
  match nodo with
  | Nodo (Some _) _ _ _ => 0
  | Nodo None _ izq der =>
      1 + match izq with Some l => _contar_nodos_internos l | None => 0 end
      + match der with Some r => _contar_nodos_internos r | None => 0 end
  end.

Definition suma_longitudes (valores : list str) : Z :=
  fold_right (fun codigo acc => Z.of_nat (length codigo) + acc) 0 valores.

Definition _calcular_longitud_promedio (self : ArbolHuffman) : Valor :=
  match codigos self with
  | [] => VFloat 0
  | _ :: _ =>
      let total_longitud := suma_longitudes (dict_values (codigos self)) in
      VFloat (div_enteros total_longitud (Z.of_nat (length (codigos self))))
  end.

Definition obtener_estadisticas (self : ArbolHuffman) : dict string Valor :=
  match raiz self with
  | None => []
  | Some r =>
      [ ("altura", VInt (_calcular_altura r));
        ("num_hojas", VInt (_contar_hojas r));
        ("num_nodos_internos", VInt (_contar_nodos_internos r));
        ("longitud_promedio_codigo", _calcular_longitud_promedio self) ]
  end.

(** ** [CompresorHuffman] *)

Record CompresorHuffman : Type := mkCompresor {
  arbol : ArbolHuffman;
  estadisticas : dict string Valor;
}.

(** [CompresorHuffman()] *)
Definition compresor_nuevo : CompresorHuffman :=
  {| arbol := arbol_vacio; estadisticas := [] |}.

(** A method of [self.arbol] run from a method of the compressor. *)
Definition en_arbol {A} (m : M ArbolHuffman A) : M CompresorHuffman A :=
  fun self =>
    let '(r, a) := m (arbol self) in
    (r, {| arbol := a; estadisticas := estadisticas self |}).

Definition set_estadisticas (d : dict string Valor) : M CompresorHuffman unit :=
  fun self => (Ok tt, {| arbol := arbol self; estadisticas := d |}).

(** [Counter(texto)]: [mapping[elem] = mapping.get(elem, 0) + 1] for each
    element, so that the keys are in order of first occurrence. *)
Definition contar (mapping : dict ascii Z) (elem : ascii) : dict ascii Z :=
  dict_set mapping elem (default 0 (dict_get mapping elem) + 1).

Definition Counter (texto : str) : dict ascii Z := fold_left contar texto [].

Definition calcular_frecuencias (texto : str) : dict ascii Z :=
  match texto with
  | [] => []
  | _ :: _ => Counter texto
  end.

(** [''.join(codigos[caracter] for caracter in texto)] *)
Fixpoint _codificar_texto (texto : str) (codigos : dict ascii str) : Resultado str :=
  match texto with
  | [] => Ok []
  | c :: texto' =>
      codigo ← dict_item codigos c;
      resto ← _codificar_texto texto' codigos;
      Ok (codigo ++ resto)
  end.

Definition _generar_estadisticas (texto_original texto_codificado : str)
           (tiempo_procesamiento : Valor) : dict string Valor :=
  match texto_original with
  | [] =>
      [ ("longitud_original", VInt 0);
        ("longitud_comprimida", VInt 0);
        ("bits_originales", VInt 0);
        ("bits_comprimidos", VInt 0);
        ("tasa_compresion", VInt 0);
        ("factor_compresion", VInt 0);
        ("bits_ahorrados", VInt 0);
        ("tiempo_compresion", tiempo_procesamiento) ]
  | _ :: _ =>
      let longitud_original := Z.of_nat (length texto_original) in
      let longitud_comprimida := Z.of_nat (length texto_codificado) in
      let bits_originales := longitud_original * 8 in
      let bits_comprimidos := longitud_comprimida in
      let tasa_compresion := VInt 0 in
      let factor_compresion := VInt 0 in
      let bits_ahorrados := bits_originales - bits_comprimidos in
      let tasa_compresion :=
        if decide (bits_originales > 0)
        then VFloat (div_enteros bits_ahorrados bits_originales * float_de_Z 100)
        else tasa_compresion in
      let factor_compresion :=
        if decide (bits_comprimidos > 0)
        then VFloat (div_enteros bits_originales bits_comprimidos)
        else factor_compresion in
      [ ("longitud_original", VInt longitud_original);
        ("longitud_comprimida", VInt longitud_comprimida);
        ("bits_originales", VInt bits_originales);
        ("bits_comprimidos", VInt bits_comprimidos);
        ("tasa_compresion", tasa_compresion);
        ("factor_compresion", factor_compresion);
        ("bits_ahorrados", VInt bits_ahorrados);
        ("tiempo_compresion", tiempo_procesamiento) ]
  end.

(** [comprimir]; [inicio_tiempo] and [fin_tiempo] are the values the two
    calls of [time.time()] return. *)
Definition comprimir (texto : str) (inicio_tiempo fin_tiempo : float64)
  : M CompresorHuffman
      (str * dict ascii str * option NodoHuffman * dict string Valor) :=
  match texto with
  | [] => mret ([], [], None, _generar_estadisticas texto [] (VInt 0))
  | _ :: _ =>
      let frecuencias := calcular_frecuencias texto in
      _ ← en_arbol (construir_desde_frecuencias frecuencias);
      codigos ← en_arbol generar_codigos;
      texto_codificado ← mlift (_codificar_texto texto codigos);
      let tiempo_transcurrido := (fin_tiempo - inicio_tiempo)%float64 in
      let estadisticas :=
        _generar_estadisticas texto texto_codificado (VFloat tiempo_transcurrido) in
      self ← mget;
      let estadisticas := dict_update estadisticas (obtener_estadisticas (arbol self)) in
      _ ← set_estadisticas estadisticas;
      self ← mget;
      mret (texto_codificado, codigos, raiz (arbol self), estadisticas)
  end.

(** The loop [for bit in texto_codificado] of [descomprimir]; a missing
    child makes [nodo_actual.es_hoja()] raise [AttributeError]. *)
Fixpoint decodificar_bits (raiz : NodoHuffman) (bits : str)
         (nodo_actual : NodoHuffman) (texto_decodificado : str)
  : Resultado (NodoHuffman * str) :=
  match bits with
  | [] => Ok (nodo_actual, texto_decodificado)
  | bit :: bits' =>
      let siguiente :=
        if decide (bit = "0"%char) then izquierdo nodo_actual
        else derecho nodo_actual in
      match siguiente with
      | None => Raise AttributeError
      | Some nodo_actual =>
          match caracter nodo_actual with
          | Some c =>
              decodificar_bits raiz bits' raiz (texto_decodificado ++ [c])
          | None =>
              decodificar_bits raiz bits' nodo_actual texto_decodificado
          end
      end
  end.

Definition descomprimir (texto_codificado : str) (raiz : option NodoHuffman)
           (inicio_tiempo fin_tiempo : float64)
  : Resultado (str * dict string Valor) :=
  match texto_codificado, raiz with
  | [], _ | _, None =>
      Ok ([], [ ("tiempo_descompresion", VInt 0); ("exito", VBool false) ])
  | _ :: _, Some raiz =>
      texto_decodificado ←
        match caracter raiz with
        | Some c => Ok (repeat c (length texto_codificado))
        | None =>
            '(_, texto_decodificado) ←
              decodificar_bits raiz texto_codificado raiz [];
            Ok texto_decodificado
        end;
      let tiempo_transcurrido := (fin_tiempo - inicio_tiempo)%float64 in
      let estadisticas :=
        [ ("tiempo_descompresion", VFloat tiempo_transcurrido);
          ("longitud_decodificada", VInt (Z.of_nat (length texto_decodificado)));
          ("exito", VBool true) ] in
      Ok (texto_decodificado, estadisticas)
  end.

(** [validar_integridad] *)
Definition validar_integridad (texto_original texto_decodificado : str) : bool :=
  bool_decide (texto_original = texto_decodificado).

(** [_calcular_entropia_shannon]: the source returns the placeholder [0.0]. *)
Definition _calcular_entropia_shannon (self : CompresorHuffman) : float64 := 0.

(** [v / k] for a Python number [v] and an integer [k]: two integers are
    divided as integers, a float is divided by [float(k)]. *)
Definition valor_entre (v : Valor) (k : Z) : float64 :=
  match v with
  | VInt z => div_enteros z k
  | VFloat f => (f / float_de_Z k)%float64
  | VBool b => div_enteros (if b then 1 else 0) k
  end.

(** [v - x] for a Python number [v] and a float [x]. *)
Definition valor_menos (v : Valor) (x : float64) : float64 :=
  match v with
  | VInt z => (float_de_Z z - x)%float64
  | VFloat f => (f - x)%float64
  | VBool b => (float_de_Z (if b then 1 else 0) - x)%float64
  end.

(** [obtener_eficiencia] *)
Definition obtener_eficiencia (self : CompresorHuffman) : dict string Valor :=
  match estadisticas self with
  | [] => []
  | _ :: _ =>
      let stats := estadisticas self in
      let entropia := _calcular_entropia_shannon self in
      let eficiencia_teorica :=
        if fltb 0 entropia then VFloat (entropia / float_de_Z 8) else VInt 0 in
      let eficiencia_practica :=
        valor_entre (default (VInt 0) (dict_get stats "tasa_compresion")) 100 in
      [ ("entropia_shannon", VFloat entropia);
        ("eficiencia_teorica", eficiencia_teorica);
        ("eficiencia_practica", VFloat eficiencia_practica);
        ("diferencia_eficiencia",
         VFloat (fabs (valor_menos eficiencia_teorica eficiencia_practica))) ]
  end.

(** ** Callers of the compressor *)

(** [max(items, key=lambda x: x[1])] and [min(items, key=lambda x: x[1])]:
    the first entry of greatest (least) value; [ValueError] on no entry. *)
Fixpoint max_desde (mejor : ascii * Z) (items : list (ascii * Z)) : ascii * Z :=
  match items with
  | [] => mejor
  | x :: items' => max_desde (if mejor.2 <? x.2 then x else mejor) items'
  end.

Fixpoint min_desde (mejor : ascii * Z) (items : list (ascii * Z)) : ascii * Z :=
  match items with
  | [] => mejor
  | x :: items' => min_desde (if x.2 <? mejor.2 then x else mejor) items'
  end.

Definition py_max (items : list (ascii * Z)) : Resultado (ascii * Z) :=
  match items with
  | [] => Raise ValueError
  | x :: items' => Ok (max_desde x items')
  end.

Definition py_min (items : list (ascii * Z)) : Resultado (ascii * Z) :=
  match items with
  | [] => Raise ValueError
  | x :: items' => Ok (min_desde x items')
  end.

Record AnalisisDistribucion : Type := mkAnalisis {
  caracteres_unicos : Z;
  caracter_mas_frecuente : ascii * Z;
  caracter_menos_frecuente : ascii * Z;
}.

(** [CLIHuffman._generar_analisis_json]: the dictionary it returns, as the
    tuple of its four entries. *)
Definition _generar_analisis_json (estadisticas : dict string Valor)
           (codigos : dict ascii str) (texto : str)
  : Resultado (dict string Valor * dict ascii str * dict ascii Z
               * AnalisisDistribucion) :=
  let frecuencias := calcular_frecuencias texto in
  mas ← py_max frecuencias;
  menos ← py_min frecuencias;
  Ok (estadisticas, codigos, frecuencias,
      {| caracteres_unicos := Z.of_nat (length frecuencias);
         caracter_mas_frecuente := mas;
         caracter_menos_frecuente := menos |}).

(** [CLIHuffman._ejecutar_demo_individual], without what it prints: the
    text is compressed, the result decompressed, and [integridad_ok] is what
    [validar_integridad] says of the two texts. The four readings of the
    clock are those of the two calls. *)
Definition _ejecutar_demo_individual (texto : str) (t0 t1 t2 t3 : float64)
  : M CompresorHuffman bool :=
  resultado ← comprimir texto t0 t1;
  let '(texto_codificado, codigos, arbol, estadisticas) := resultado in
  '(texto_recuperado, _) ← mlift (descomprimir texto_codificado arbol t2 t3);
  let integridad_ok := validar_integridad texto texto_recuperado in
  mret integridad_ok.

(** [verificar_instalacion] of the package: the basic test on the text
    [test]; any exception gives [False]. *)
Definition verificar_instalacion (inicio_tiempo fin_tiempo : float64) : bool :=
  match (comprimir (String.list_ascii_of_string "test")
                   inicio_tiempo fin_tiempo compresor_nuevo).1 with
  | Ok (texto_codificado, codigos, arbol, _) =>
      match texto_codificado, codigos, arbol with
      | _ :: _, _ :: _, Some _ => true
      | _, _, _ => false
      end
  | Raise _ => false
  end.

(** * Vocabulary of the statements *)

(** A node as the constructor calls of the source make it: a leaf holds a
    character and no child, a parent holds no character and two children. *)
Inductive completo : NodoHuffman -> Prop :=
| completo_hoja c f : completo (nodo_hoja c f)
| completo_padre f l r :
    completo l -> completo r -> completo (nodo_padre f l r).

(** The characters at the leaves, from left to right. *)
Fixpoint hojas (n : NodoHuffman) : list ascii :=
  match n with
  | Nodo (Some c) _ _ _ => [c]
  | Nodo None _ izq der =>
      match izq with Some l => hojas l | None => [] end
      ++ match der with Some r => hojas r | None => [] end
  end.

(** The entries at the leaves, each character with its weight, from left
    to right. *)
Fixpoint entradas_hojas (n : NodoHuffman) : list (ascii * Z) :=
  match n with
  | Nodo (Some c) f _ _ => [(c, f)]
  | Nodo None _ izq der =>
      match izq with Some l => entradas_hojas l | None => [] end
      ++ match der with Some r => entradas_hojas r | None => [] end
  end.

(** Some node without character that the decoder can reach from the root,
    going through nodes without character, lacks a child. *)
Inductive falta_hijo : NodoHuffman -> Prop :=
| falta_izquierdo f der : falta_hijo (Nodo None f None der)
| falta_derecho f izq : falta_hijo (Nodo None f izq None)
| falta_bajo_izquierdo f l der :
    falta_hijo l -> falta_hijo (Nodo None f (Some l) der)
| falta_bajo_derecho f izq r :
    falta_hijo r -> falta_hijo (Nodo None f izq (Some r)).

(** The leaves pushed for the entries of a table. *)
Definition hojas_de (items : list (ascii * Z)) : list NodoHuffman :=
  (fun cf => nodo_hoja cf.1 cf.2) <$> items.

(** The path to every leaf, from left to right, below the prefix [codigo]. *)
Fixpoint codigos_de (n : NodoHuffman) (codigo : str) : dict ascii str :=
  match n with
  | Nodo (Some c) _ _ _ => [(c, codigo)]
  | Nodo None _ izq der =>
      match izq with Some l => codigos_de l (codigo ++ ["0"%char]) | None => [] end
      ++ match der with Some r => codigos_de r (codigo ++ ["1"%char]) | None => [] end
  end.

Definition es_digito (b : ascii) : Prop := b = "0"%char \/ b = "1"%char.

(** The child the decoder moves to on a digit. *)
Definition hijo (bit : ascii) (n : NodoHuffman) : option NodoHuffman :=
  if decide (bit = "0"%char) then izquierdo n else derecho n.

(** The dictionary [generar_codigos] returns for the root [r]. *)
Definition codigos_arbol (r : NodoHuffman) : dict ascii str :=
  match caracter r with
  | Some c => [(c, ["0"%char])]
  | None => codigos_de r []
  end.

(** The statistics [comprimir] returns for the text, its encoding and the
    tree with root [r]. *)
Definition estadisticas_de (texto cod : str) (r : NodoHuffman)
           (inicio_tiempo fin_tiempo : float64) : dict string Valor :=
  dict_update
    (_generar_estadisticas texto cod (VFloat (fin_tiempo - inicio_tiempo)))
    (obtener_estadisticas {| raiz := Some r; codigos := codigos_arbol r |}).

(** A text written as a string literal. *)
Definition texto_de (x : string) : str := String.list_ascii_of_string x.

(** The first pass of the loop of [construir_desde_frecuencias]: the two
    nodes extracted, and the heap they leave. *)
Definition primera_fusion (frecuencias : dict ascii Z)
  : Resultado (NodoHuffman * NodoHuffman * list NodoHuffman) :=
  heap ← insertar_hojas frecuencias [];
  '(izq, heap) ← heapq.heappop heap;
  '(der, heap) ← heapq.heappop heap;
  Ok (izq, der, heap).

(** What C4 says of the ties: a key of a leaf, computed from its symbol and
    from its insertion sequence number, decides which of two leaves of equal
    weight leaves the heap first. Here the table has distinct characters, and
    the leaf of entry [i] is extracted while the leaf of another entry [j],
    of the same weight, stays in the heap. *)
Definition desempate_por_clave (clave : ascii -> nat -> Z) : Prop :=
  forall frecuencias izq der resto i j ci cj f,
    NoDup (dict_keys frecuencias) -> i ≠ j ->
    primera_fusion frecuencias = Ok (izq, der, resto) ->
    frecuencias !! i = Some (ci, f) -> frecuencias !! j = Some (cj, f) ->
    der = nodo_hoja ci f -> nodo_hoja cj f ∈ resto ->
    clave ci i < clave cj j.

(** The heap invariant of [heapq]: no child is less than its parent, the
    children of position [p] being at [2 p + 1] and [2 p + 2]. *)
Definition es_hijo (c p : nat) : Prop := (c = 2 * p + 1 \/ c = 2 * p + 2)%nat.

Definition es_heap (heap : list NodoHuffman) : Prop :=
  forall p c x y,
    es_hijo c p -> heap !! p = Some x -> heap !! c = Some y ->
    frecuencia x <= frecuencia y.

(** The state of [_siftdown] while [newitem] is held aside: the order holds
    wherever the hole is not the child, the children of the hole are not
    less than its parent nor than [newitem]. *)
Definition hueco_sube (heap : list NodoHuffman) (pos : nat)
           (newitem : NodoHuffman) : Prop :=
  (forall p c x y, es_hijo c p -> c ≠ pos ->
                   heap !! p = Some x -> heap !! c = Some y ->
                   frecuencia x <= frecuencia y)
  /\ (forall g c x y, es_hijo pos g -> es_hijo c pos ->
                      heap !! g = Some x -> heap !! c = Some y ->
                      frecuencia x <= frecuencia y)
  /\ (forall c y, es_hijo c pos -> heap !! c = Some y ->
                  frecuencia newitem <= frecuencia y).

(** The state of [_siftup] while the smaller children move up: the order
    holds wherever the hole is not the parent, and the children of the hole
    are not less than its parent. *)
Definition hueco_baja (heap : list NodoHuffman) (pos : nat) : Prop :=
  (forall p c x y, es_hijo c p -> p ≠ pos ->
                   heap !! p = Some x -> heap !! c = Some y ->
                   frecuencia x <= frecuencia y)
  /\ (forall g c x y, es_hijo pos g -> es_hijo c pos ->
                      heap !! g = Some x -> heap !! c = Some y ->
                      frecuencia x <= frecuencia y).

(** The sum of the weights at the leaves. *)
Fixpoint peso (n : NodoHuffman) : Z :=
  match n with
  | Nodo (Some _) f _ _ => f
  | Nodo None _ izq der =>
      match izq with Some l => peso l | None => 0 end
      + match der with Some r => peso r | None => 0 end
  end.

(** Every parent weighs the sum of its two children, and its left child is
    not heavier than its right child. *)
Inductive pesado : NodoHuffman -> Prop :=
| pesado_hoja c f : pesado (nodo_hoja c f)
| pesado_padre l r :
    pesado l -> pesado r -> frecuencia l <= frecuencia r ->
    pesado (nodo_padre (frecuencia l + frecuencia r) l r).

(** The sum of the weights of the nodes of a heap. *)
Definition suma_pesos (heap : list NodoHuffman) : Z :=
  fold_right (fun n acc => frecuencia n + acc) 0 heap.

Definition suma_frecuencias (frecuencias : dict ascii Z) : Z :=
  fold_right Z.add 0 (dict_values frecuencias).

(** The number of occurrences of a character in a text. *)
Fixpoint apariciones (c : ascii) (texto : str) : Z :=
  match texto with
  | [] => 0
  | a :: texto' => (if decide (a = c) then 1 else 0) + apariciones c texto'
  end.

(** The characters of a text in the order of their first occurrences. *)
Fixpoint primeras_apariciones (texto : str) : list ascii :=
  match texto with
  | [] => []
  | a :: texto' => a :: filter (fun x => x ≠ a) (primeras_apariciones texto')
  end.

(** The length of the code of a character, zero when it has none. *)
Definition longitud_codigo (codigos : dict ascii str) (c : ascii) : Z :=
  match dict_get codigos c with
  | Some w => Z.of_nat (length w)
  | None => 0
  end.

(** The length of the longest code of a code book. *)
Definition longitud_maxima (codigos : dict ascii str) : Z :=
  fold_right (fun cw acc => Z.max (Z.of_nat (length cw.2)) acc) 0 codigos.

(** The digits a text takes with a code book, occurrence by occurrence. *)
Definition bits_texto (codigos : dict ascii str) (texto : str) : Z :=
  fold_right (fun c acc => longitud_codigo codigos c + acc) 0 texto.

(** The digits that the texts of a table of frequencies take with a code
    book: each frequency times the length of the code. *)
Definition bits_por_frecuencias (frecuencias : dict ascii Z)
           (codigos : dict ascii str) : Z :=
  fold_right (fun cf acc => cf.2 * longitud_codigo codigos cf.1 + acc)
             0 frecuencias.

(** * Properties *)

(** ** Writing into a list read as an array *)

Section ListaComoArreglo.
Context {A : Type}.
Implicit Types (l : list A) (x y z : A) (i j : nat).

Lemma insert_cons_perm l j x y :
  l !! j = Some y -> y :: <[j:=x]> l ≡ₚ x :: l.
Proof.
  revert j. induction l as [|a l IH]; intros [|j] Hj; simplify_eq/=.
  - apply perm_swap.
  - rewrite perm_swap. rewrite (IH _ Hj). apply perm_swap.
Qed.

(** Moving the element at [j] into the hole at [i] and the held element
    into [j] permutes the list with its hole filled. *)
Lemma insert_swap_perm l i j x y :
  l !! j = Some y -> i ≠ j -> (i < length l)%nat ->
  <[j:=x]> (<[i:=y]> l) ≡ₚ <[i:=x]> l.
Proof.
  intros Hj Hij Hi.
  destruct (lookup_lt_is_Some_2 l i Hi) as [z Hz].
  apply (Permutation_cons_inv (a := z)), (Permutation_cons_inv (a := y)).
  assert (<[i:=y]> l !! j = Some y) as Hj' by (by rewrite list_lookup_insert_ne).
  trans (x :: y :: l).
  - rewrite (perm_swap z y), (insert_cons_perm _ j x y Hj').
    rewrite (perm_swap x z), (insert_cons_perm _ i y z Hz). done.
  - rewrite (insert_cons_perm _ i x z Hz). apply perm_swap.
Qed.

End ListaComoArreglo.

(** ** [heapq]: every call on indices in range returns, and the heap
    holds the same nodes afterwards *)

Lemma rbind_Ok {A B} (a : A) (k : A -> Resultado B) : (Ok a ≫= k) = k a.
Proof. reflexivity. Qed.

Lemma rbind_Raise {A B} e (k : A -> Resultado B) : (Raise e ≫= k) = Raise e.
Proof. reflexivity. Qed.

Section HeapqProps.
Import heapq.
Implicit Types (heap : list NodoHuffman) (x : NodoHuffman).

Lemma leer_Some heap i x : heap !! i = Some x -> leer heap i = Ok x.
Proof. unfold leer. by intros ->. Qed.

Lemma leer_lt heap i :
  (i < length heap)%nat -> exists x, heap !! i = Some x /\ leer heap i = Ok x.
Proof.
  intros Hi. destruct (lookup_lt_is_Some_2 heap i Hi) as [x Hx].
  exists x. split; [done | by apply leer_Some].
Qed.

Lemma asignar_lt heap i x :
  (i < length heap)%nat -> asignar heap i x = Ok (<[i:=x]> heap).
Proof. intros Hi. unfold asignar. by rewrite decide_True. Qed.

Lemma siftdown_loop_ok fuel : forall heap startpos pos newitem,
  (pos <= fuel)%nat -> (pos < length heap)%nat ->
  exists heap' pos',
    siftdown_loop fuel heap startpos pos newitem = Ok (heap', pos')
    /\ (pos' < length heap')%nat
    /\ <[pos':=newitem]> heap' ≡ₚ <[pos:=newitem]> heap.
Proof.
  induction fuel as [|fuel IH]; intros heap startpos pos newitem Hf Hp;
    cbn [siftdown_loop].
  - rewrite decide_False by lia. by exists heap, pos.
  - destruct (decide (startpos < pos)%nat) as [Hlt|]; [|by exists heap, pos].
    assert ((pos - 1) / 2 < pos)%nat as Hpar.
    { pose proof (Nat.Div0.mul_div_le (pos - 1) 2). lia. }
    destruct (leer_lt heap ((pos - 1) / 2)) as (parent & Hparent & ->); [lia|].
    rewrite rbind_Ok.
    destruct (nodo_lt newitem parent); [|by exists heap, pos].
    rewrite asignar_lt, rbind_Ok by done.
    destruct (IH (<[pos:=parent]> heap) startpos ((pos - 1) / 2)%nat newitem)
      as (heap' & pos' & -> & Hp' & Hperm).
    { lia. } { rewrite length_insert. lia. }
    exists heap', pos'. split_and!; [done..|].
    rewrite Hperm. apply insert_swap_perm; [done | lia | done].
Qed.

Lemma _siftdown_ok heap startpos pos :
  (pos < length heap)%nat ->
  exists heap', _siftdown heap startpos pos = Ok heap' /\ heap' ≡ₚ heap.
Proof.
  intros Hp. unfold _siftdown.
  destruct (leer_lt heap pos Hp) as (newitem & Hnew & ->). rewrite rbind_Ok.
  destruct (siftdown_loop_ok pos heap startpos pos newitem)
    as (heap' & pos' & -> & Hp' & Hperm); [lia | done |].
  rewrite rbind_Ok. rewrite asignar_lt by done.
  eexists; split; [done|]. by rewrite Hperm, list_insert_id.
Qed.

Lemma siftup_loop_ok fuel : forall heap pos childpos,
  (length heap <= childpos + fuel)%nat -> (pos < childpos)%nat ->
  (pos < length heap)%nat ->
  exists heap' pos',
    siftup_loop fuel heap (length heap) pos childpos = Ok (heap', pos')
    /\ (pos' < length heap')%nat /\ length heap' = length heap
    /\ forall x, <[pos':=x]> heap' ≡ₚ <[pos:=x]> heap.
Proof.
  induction fuel as [|fuel IH]; intros heap pos childpos Hf Hc Hp;
    cbn [siftup_loop].
  - rewrite decide_False by lia. by exists heap, pos.
  - destruct (decide (childpos < length heap)%nat) as [Hlt|]; [|by exists heap, pos].
    assert (exists c, (childpos <= c < length heap)%nat /\
              (if decide (childpos + 1 < length heap)%nat
               then l ← leer heap childpos; r ← leer heap (childpos + 1)%nat;
                    Ok (if negb (nodo_lt l r) then (childpos + 1)%nat else childpos)
               else Ok childpos) = Ok c) as (c & Hc' & ->).
    { destruct (decide (childpos + 1 < length heap)%nat) as [Hr|]; [|by exists childpos].
      destruct (leer_lt heap childpos Hlt) as (l & _ & ->).
      destruct (leer_lt heap (childpos + 1) Hr) as (r & _ & ->).
      rewrite !rbind_Ok. destruct (negb (nodo_lt l r)); eexists; split; [|done| |done]; lia. }
    rewrite rbind_Ok.
    destruct (leer_lt heap c) as (child & Hchild & ->); [lia|].
    rewrite rbind_Ok, asignar_lt, rbind_Ok by done.
    destruct (IH (<[pos:=child]> heap) c (2 * c + 1)%nat)
      as (heap' & pos' & Heq & Hp' & Hlen & Hperm).
    { rewrite length_insert. lia. } { lia. } { rewrite length_insert. lia. }
    rewrite length_insert in Heq. rewrite Heq.
    exists heap', pos'. split_and!; [done..| by rewrite Hlen, length_insert |].
    intros x. rewrite Hperm. apply insert_swap_perm; [done | lia | done].
Qed.

Lemma _siftup_ok heap pos :
  (pos < length heap)%nat ->
  exists heap', _siftup heap pos = Ok heap' /\ heap' ≡ₚ heap.
Proof.
  intros Hp. unfold _siftup.
  destruct (leer_lt heap pos Hp) as (newitem & Hnew & ->). rewrite rbind_Ok.
  destruct (siftup_loop_ok (length heap) heap pos (2 * pos + 1))
    as (heap1 & pos1 & -> & Hp1 & Hlen & Hperm); [lia..|].
  rewrite rbind_Ok, asignar_lt, rbind_Ok by done.
  destruct (_siftdown_ok (<[pos1:=newitem]> heap1) pos pos1)
    as (heap2 & -> & Hperm2); [by rewrite length_insert|].
  exists heap2. split; [done|].
  by rewrite Hperm2, Hperm, list_insert_id.
Qed.

Lemma heappush_ok heap x :
  exists heap', heappush heap x = Ok heap' /\ heap' ≡ₚ x :: heap.
Proof.
  unfold heappush.
  destruct (_siftdown_ok (heap ++ [x]) 0 (length (heap ++ [x]) - 1))
    as (heap' & -> & Hperm).
  { rewrite length_app. simpl. lia. }
  exists heap'. split; [done|]. by rewrite Hperm, Permutation_app_comm.
Qed.

Lemma pop_ok heap x :
  pop (heap ++ [x]) = Ok (x, heap).
Proof.
  unfold pop. rewrite last_snoc, length_app. simpl.
  by rewrite Nat.add_sub, take_app_length.
Qed.

Lemma heappop_ok heap :
  heap ≠ [] ->
  exists x heap', heappop heap = Ok (x, heap') /\ heap ≡ₚ x :: heap'.
Proof.
  intros Hne. destruct (exists_last Hne) as (h & ult & ->).
  unfold heappop. rewrite pop_ok, rbind_Ok.
  destruct h as [|primero h]; [by exists ult, []|].
  rewrite (leer_Some _ 0 primero), rbind_Ok by done.
  rewrite asignar_lt, rbind_Ok by (simpl; lia). simpl.
  destruct (_siftup_ok (ult :: h) 0) as (heap' & -> & Hperm); [simpl; lia|].
  exists primero, heap'. split; [done|].
  rewrite Hperm. simpl. by rewrite Permutation_app_comm.
Qed.
End HeapqProps.

(** ** The trees that [construir_desde_frecuencias] builds *)

Section Construccion.
Import heapq.
Implicit Types (heap : list NodoHuffman) (frecuencias : dict ascii Z).

Lemma insertar_hojas_ok items : forall heap,
  exists heap', insertar_hojas items heap = Ok heap'
                /\ heap' ≡ₚ hojas_de items ++ heap.
Proof.
  induction items as [|[c f] items IH]; intros heap; simpl.
  - by exists heap.
  - destruct (heappush_ok heap (nodo_hoja c f)) as (heap1 & -> & Hperm1).
    rewrite rbind_Ok. destruct (IH heap1) as (heap2 & -> & Hperm2).
    exists heap2. split; [done|].
    by rewrite Hperm2, Hperm1, Permutation_middle.
Qed.

Lemma hojas_de_completo items : Forall completo (hojas_de items).
Proof. apply Forall_fmap, Forall_true. intros [c f]. constructor. Qed.

Lemma hojas_de_hojas items : hojas_de items ≫= hojas = items.*1.
Proof.
  induction items as [|[c f] items IH]; [done|].
  unfold hojas_de in *. by rewrite !fmap_cons, bind_cons, IH.
Qed.

Lemma combinar_ok fuel : forall heap,
  (length heap <= S fuel)%nat -> heap ≠ [] ->
  exists r, combinar fuel heap = Ok [r]
            /\ (Forall completo heap -> completo r)
            /\ hojas r ≡ₚ heap ≫= hojas.
Proof.
  induction fuel as [|fuel IH]; intros heap Hf Hne; cbn [combinar].
  - rewrite decide_False by lia.
    destruct heap as [|r [|]]; [done| |simpl in *; lia].
    exists r. split_and!; [done|by inversion 1|].
    by rewrite bind_singleton.
  - destruct (decide (1 < length heap)%nat) as [Hlen|Hlen].
    + destruct (heappop_ok heap Hne) as (izq & heap1 & -> & Hp1).
      rewrite rbind_Ok.
      assert (length heap = S (length heap1)) as Hl1 by (by rewrite Hp1).
      destruct (heappop_ok heap1) as (der & heap2 & -> & Hp2).
      { intros ->. simpl in *. lia. }
      rewrite rbind_Ok.
      assert (length heap1 = S (length heap2)) as Hl2 by (by rewrite Hp2).
      set (padre := nodo_padre (frecuencia izq + frecuencia der) izq der).
      destruct (heappush_ok heap2 padre) as (heap3 & -> & Hp3).
      rewrite rbind_Ok.
      assert (length heap3 = S (length heap2)) as Hl3 by (by rewrite Hp3).
      destruct (IH heap3) as (r & -> & Hcomp & Hhojas).
      { lia. } { intros ->. done. }
      exists r. split_and!; [done| |].
      * intros Hall. apply Hcomp. rewrite Hp3.
        rewrite Hp1, Hp2 in Hall.
        apply Forall_cons in Hall as [Hizq Hall].
        apply Forall_cons in Hall as [Hder Hall].
        apply Forall_cons. split; [by constructor | done].
      * rewrite Hhojas, Hp3, Hp1, Hp2, !bind_cons. simpl.
        by rewrite (assoc (++)).
    + destruct heap as [|r [|]]; [done| |simpl in *; lia].
      exists r. split_and!; [done|by inversion 1|].
      by rewrite bind_singleton.
Qed.

(** On a non-empty table the construction returns and sets [raiz] to a
    full tree whose leaves are the keys of the table; the tree does not
    depend on the state the object was in. *)
Lemma construir_ok frecuencias :
  frecuencias ≠ [] ->
  exists r,
    (forall self,
       construir_desde_frecuencias frecuencias self
       = (Ok tt, {| raiz := Some r; codigos := codigos self |}))
    /\ completo r /\ hojas r ≡ₚ dict_keys frecuencias.
Proof.
  intros Hne. destruct frecuencias as [|[c f] resto]; [done|].
  unfold construir_desde_frecuencias.
  destruct (decide (length ((c, f) :: resto) = 1%nat)) as [Huno|Hvarios].
  - destruct resto; [|done].
    exists (nodo_hoja c f). split_and!; [|constructor|done].
    intros self. unfold mbind, M_bind, mbindM, mlift, dict_item. simpl.
    by rewrite decide_True.
  - destruct (insertar_hojas_ok ((c, f) :: resto) []) as (heap & Hins & Hperm).
    rewrite app_nil_r in Hperm.
    destruct (combinar_ok (length heap) heap) as (r & Hcomb & Hcomp & Hhojas).
    { lia. } { intros ->. by apply Permutation_nil_cons in Hperm. }
    exists r. split_and!.
    + intros self. unfold mbind, M_bind, mbindM, mlift. by rewrite Hins, Hcomb.
    + apply Hcomp. rewrite Hperm. apply hojas_de_completo.
    + by rewrite Hhojas, Hperm, hojas_de_hojas.
Qed.
End Construccion.

(** ** Dictionaries *)

Section DictProps.
Context {K V : Type} `{EqDecision K}.
Implicit Types (d : dict K V) (k : K) (v : V).

Lemma dict_get_elem_of d k :
  k ∈ dict_keys d -> exists v, dict_get d k = Some v /\ (k, v) ∈ d.
Proof.
  unfold dict_keys. induction d as [|[k' v'] d IH]; csimpl.
  - by intros ?%elem_of_nil.
  - intros Hin. destruct (decide (k' = k)) as [->|Hne].
    + exists v'. split; [done | left].
    + apply elem_of_cons in Hin as [?|Hin]; [done|].
      destruct (IH Hin) as (v & ? & ?). exists v. split; [done | by right].
Qed.

Lemma dict_get_Some d k v : dict_get d k = Some v -> (k, v) ∈ d.
Proof.
  induction d as [|[k' v'] d IH]; csimpl; [done|].
  destruct (decide (k' = k)) as [->|Hne].
  - intros [= ->]. left.
  - intros Hd. right. by apply IH.
Qed.

Lemma dict_set_nuevo d k v : k ∉ dict_keys d -> dict_set d k v = d ++ [(k, v)].
Proof.
  unfold dict_keys. induction d as [|[k' v'] d IH]; csimpl; [done|].
  rewrite not_elem_of_cons. intros [Hne Hnin].
  rewrite decide_False by done. by rewrite IH.
Qed.

Lemma dict_set_keys_presente d k v :
  k ∈ dict_keys d -> dict_keys (dict_set d k v) = dict_keys d.
Proof.
  unfold dict_keys. induction d as [|[k' v'] d IH]; csimpl.
  - by intros ?%elem_of_nil.
  - intros Hin. destruct (decide (k' = k)) as [->|Hne]; [done|].
    apply elem_of_cons in Hin as [?|Hin]; [done|]. csimpl. by rewrite IH.
Qed.

Lemma dict_set_keys d k v :
  dict_keys (dict_set d k v)
  = if decide (k ∈ dict_keys d) then dict_keys d else dict_keys d ++ [k].
Proof.
  destruct (decide (k ∈ dict_keys d)).
  - by apply dict_set_keys_presente.
  - rewrite dict_set_nuevo by done. unfold dict_keys. by rewrite fmap_app.
Qed.

Lemma dict_set_NoDup d k v :
  NoDup (dict_keys d) -> NoDup (dict_keys (dict_set d k v)).
Proof.
  intros Hnd. rewrite dict_set_keys. destruct (decide (k ∈ dict_keys d)); [done|].
  apply NoDup_app. split_and!; [done| |apply NoDup_singleton].
  intros x Hx ->%list_elem_of_singleton. done.
Qed.

Lemma dict_set_elem_of_keys d k v k' :
  k' ∈ dict_keys (dict_set d k v) <-> k' ∈ dict_keys d \/ k' = k.
Proof.
  rewrite dict_set_keys. destruct (decide (k ∈ dict_keys d)).
  - split; [by left | by intros [?| ->]].
  - rewrite elem_of_app, list_elem_of_singleton. done.
Qed.

Lemma dict_get_set d k v k' :
  dict_get (dict_set d k v) k' = if decide (k = k') then Some v else dict_get d k'.
Proof.
  induction d as [|[k0 v0] d IH]; csimpl.
  - destruct (decide (k = k')); done.
  - destruct (decide (k0 = k)) as [->|Hne]; csimpl.
    + destruct (decide (k = k')); done.
    + rewrite IH. destruct (decide (k0 = k')) as [->|]; [|done].
      by rewrite decide_False.
Qed.

Lemma dict_get_update_otro d e k :
  k ∉ dict_keys e -> dict_get (dict_update d e) k = dict_get d k.
Proof.
  unfold dict_update, dict_keys. revert d.
  induction e as [|[k0 v0] e IH]; intros d; csimpl; [done|].
  rewrite not_elem_of_cons. intros [Hne Hnin].
  rewrite IH by done. rewrite dict_get_set. by rewrite decide_False.
Qed.
End DictProps.

(** ** [Counter] *)

Lemma Counter_fold texto : forall mapping,
  NoDup (dict_keys mapping) ->
  NoDup (dict_keys (fold_left contar texto mapping))
  /\ forall c, c ∈ dict_keys (fold_left contar texto mapping)
               <-> c ∈ dict_keys mapping \/ c ∈ texto.
Proof.
  induction texto as [|a texto IH]; intros mapping Hnd; csimpl.
  - split; [done|]. intros c. rewrite elem_of_nil. tauto.
  - destruct (IH (contar mapping a)) as [Hnd' Hin].
    { by apply dict_set_NoDup. }
    split; [done|]. intros c. rewrite Hin. unfold contar.
    rewrite dict_set_elem_of_keys, elem_of_cons. tauto.
Qed.

Lemma Counter_keys texto :
  NoDup (dict_keys (Counter texto))
  /\ forall c, c ∈ dict_keys (Counter texto) <-> c ∈ texto.
Proof.
  destruct (Counter_fold texto []) as [Hnd Hin]; [constructor|].
  split; [done|]. intros c. unfold Counter.
  rewrite Hin. unfold dict_keys. simpl. rewrite elem_of_nil. tauto.
Qed.

Lemma Counter_no_vacio texto : texto ≠ [] -> Counter texto ≠ [].
Proof.
  destruct texto as [|a texto]; [done|]. intros _ Hvacio.
  destruct (Counter_keys (a :: texto)) as [_ Hin].
  specialize (Hin a). rewrite Hvacio in Hin.
  unfold dict_keys in Hin. simpl in Hin. rewrite elem_of_nil in Hin.
  apply Hin. left.
Qed.

(** A text made of one symbol is counted as that symbol and its length. *)
Lemma Counter_un_simbolo c texto : forall k,
  Forall (fun x => x = c) texto ->
  fold_left contar texto [(c, k)] = [(c, k + Z.of_nat (length texto))].
Proof.
  induction texto as [|a texto IH]; intros k Hall; csimpl.
  - by rewrite Z.add_0_r.
  - apply Forall_cons in Hall as [-> Hall]. unfold contar at 2. simpl.
    rewrite !decide_True by done. simpl. rewrite IH by done.
    do 2 f_equal. lia.
Qed.

(** ** The codes of a tree *)

Section Codigos.
Implicit Types (n l r : NodoHuffman) (c : ascii) (w p codigo : str).

Lemma codigos_de_keys n :
  completo n -> forall p, dict_keys (codigos_de n p) = hojas n.
Proof.
  unfold dict_keys.
  induction 1 as [|f l r Hl IHl Hr IHr]; intros p; simpl; [done|].
  by rewrite fmap_app, IHl, IHr.
Qed.

Lemma codigos_de_prefijo n :
  completo n -> forall p,
  codigos_de n p = (fun cw => (cw.1, p ++ cw.2)) <$> codigos_de n [].
Proof.
  induction 1 as [c f|f l r Hl IHl Hr IHr]; intros p; simpl.
  - by rewrite app_nil_r.
  - rewrite fmap_app, (IHl (p ++ _)), (IHr (p ++ _)), (IHl [_]), (IHr [_]).
    rewrite <- !list_fmap_compose. f_equal; apply list_fmap_ext;
      intros _ [c w] _; simpl; by rewrite <- (assoc (++)).
Qed.

Lemma codigos_de_padre f l r c w :
  completo l -> completo r ->
  (c, w) ∈ codigos_de (nodo_padre f l r) [] ->
  (exists w', w = "0"%char :: w' /\ (c, w') ∈ codigos_de l [])
  \/ (exists w', w = "1"%char :: w' /\ (c, w') ∈ codigos_de r []).
Proof.
  intros Hl Hr. simpl.
  rewrite (codigos_de_prefijo l Hl), (codigos_de_prefijo r Hr), elem_of_app.
  intros [Hin|Hin]; apply list_elem_of_fmap in Hin as ([c' w'] & [= -> ->] & Hin);
    [left|right]; by exists w'.
Qed.

(** [_generar_codigos_recursivo] appends the codes of the tree to a
    dictionary that holds none of its characters. *)
Lemma _generar_codigos_recursivo_spec n :
  completo n -> forall p (d : dict ascii str),
  NoDup (hojas n) -> (forall c, c ∈ hojas n -> c ∉ dict_keys d) ->
  _generar_codigos_recursivo n p d = d ++ codigos_de n p.
Proof.
  induction 1 as [c f|f l r Hl IHl Hr IHr]; intros p d Hnd Hdis; simpl.
  - apply dict_set_nuevo, Hdis. simpl. left.
  - simpl in Hnd, Hdis. apply NoDup_app in Hnd as (Hndl & Hlr & Hndr).
    rewrite IHl; [|done|].
    2:{ intros c Hc. apply Hdis, elem_of_app. by left. }
    rewrite IHr; [by rewrite (assoc (++))|done|].
    intros c Hc. unfold dict_keys. rewrite fmap_app, elem_of_app.
    intros [Hd|Hcl].
    + by apply (Hdis c); [apply elem_of_app; right|].
    + fold (dict_keys (codigos_de l (p ++ ["0"%char]))) in Hcl.
      rewrite codigos_de_keys in Hcl by done. by apply (Hlr c).
Qed.

Lemma codigos_de_digitos n :
  completo n -> forall c w, (c, w) ∈ codigos_de n [] -> Forall es_digito w.
Proof.
  induction 1 as [c0 f|f l r Hl IHl Hr IHr]; intros c w Hin.
  - apply list_elem_of_singleton in Hin as [= -> ->]. constructor.
  - apply codigos_de_padre in Hin as [(w' & -> & Hin)|(w' & -> & Hin)]; [| |done..].
    + constructor; [by left | by eapply IHl].
    + constructor; [by right | by eapply IHr].
Qed.

Lemma codigos_de_no_vacio f l r c w :
  completo l -> completo r -> (c, w) ∈ codigos_de (nodo_padre f l r) [] -> w ≠ [].
Proof.
  intros Hl Hr Hin.
  by apply codigos_de_padre in Hin as [(w' & -> & _)|(w' & -> & _)].
Qed.

(** Two leaves whose paths are one a prefix of the other are the same leaf. *)
Lemma codigos_de_libre_de_prefijos n :
  completo n -> forall c1 w1 c2 w2,
  (c1, w1) ∈ codigos_de n [] -> (c2, w2) ∈ codigos_de n [] ->
  w1 `prefix_of` w2 -> c1 = c2 /\ w1 = w2.
Proof.
  induction 1 as [c0 f|f l r Hl IHl Hr IHr]; intros c1 w1 c2 w2 H1 H2 Hpre.
  - apply list_elem_of_singleton in H1 as [= -> ->].
    by apply list_elem_of_singleton in H2 as [= -> ->].
  - apply codigos_de_padre in H1 as [(w1' & -> & H1)|(w1' & -> & H1)]; [| |done..];
    apply codigos_de_padre in H2 as [(w2' & -> & H2)|(w2' & -> & H2)]; try done;
    destruct Hpre as [k [= Hk]]; try done.
    + destruct (IHl c1 w1' c2 w2' H1 H2) as [-> ->]; [by exists k | done].
    + destruct (IHr c1 w1' c2 w2' H1 H2) as [-> ->]; [by exists k | done].
Qed.
End Codigos.

(** ** Decoding *)

Section Decodificacion.
Implicit Types (n raiz : NodoHuffman) (c bit : ascii) (w resto acc : str).

(** Entering the subtree [n] with the digit [bit] and following the path
    of one of its leaves emits that leaf and returns to the root. *)
Lemma decodificar_bits_codigo n :
  completo n -> forall c w, (c, w) ∈ codigos_de n [] ->
  forall raiz bit nodo_actual resto acc,
  hijo bit nodo_actual = Some n ->
  decodificar_bits raiz (bit :: w ++ resto) nodo_actual acc
  = decodificar_bits raiz resto raiz (acc ++ [c]).
Proof.
  unfold hijo.
  induction 1 as [c0 f|f l r Hl IHl Hr IHr];
    intros c w Hin raiz bit nodo_actual resto acc Hhijo;
    cbn [decodificar_bits]; rewrite Hhijo.
  - by apply list_elem_of_singleton in Hin as [= -> ->].
  - apply codigos_de_padre in Hin as [(w' & -> & Hin)|(w' & -> & Hin)]; [| |done..].
    + by apply IHl.
    + by apply IHr.
Qed.

(** The walk never meets a missing child in a full tree. *)
Lemma decodificar_bits_total raiz :
  completo raiz -> caracter raiz = None ->
  forall bits n acc, completo n -> caracter n = None ->
  exists n' acc', decodificar_bits raiz bits n acc = Ok (n', acc')
                  /\ completo n' /\ caracter n' = None.
Proof.
  intros Hraiz Hint. induction bits as [|bit bits IH]; intros n acc Hn Hc.
  - by exists n, acc.
  - cbn [decodificar_bits]. destruct Hn as [|f l r Hl Hr]; [done|].
    simpl. destruct (decide (bit = "0"%char)).
    + destruct (caracter l) eqn:Hcl; by apply IH.
    + destruct (caracter r) eqn:Hcr; by apply IH.
Qed.
End Decodificacion.

(** ** [comprimir] and [descomprimir] on the trees of the construction *)

Lemma generar_codigos_ok r (d : dict ascii str) :
  completo r -> NoDup (hojas r) ->
  generar_codigos {| raiz := Some r; codigos := d |}
  = (Ok (codigos_arbol r), {| raiz := Some r; codigos := codigos_arbol r |}).
Proof.
  intros Hr Hnd. unfold generar_codigos, codigos_arbol. simpl.
  destruct (caracter r) eqn:Hc; simpl; [done|].
  rewrite _generar_codigos_recursivo_spec; [done..|].
  intros c _. apply not_elem_of_nil.
Qed.

Lemma codigos_arbol_keys r c :
  completo r -> c ∈ dict_keys (codigos_arbol r) <-> c ∈ hojas r.
Proof.
  intros Hr. unfold codigos_arbol.
  destruct Hr as [c0 f|f l rr Hl Hrr]; [done|].
  cbn [caracter nodo_padre]. by rewrite codigos_de_keys by by constructor.
Qed.

Lemma _codificar_texto_ok texto (d : dict ascii str) :
  (forall c, c ∈ texto -> c ∈ dict_keys d) ->
  exists cod, _codificar_texto texto d = Ok cod.
Proof.
  induction texto as [|a texto IH]; intros Hin; simpl; [by exists []|].
  destruct (dict_get_elem_of d a) as (w & Hw & _); [apply Hin; left|].
  unfold dict_item. rewrite Hw, rbind_Ok.
  destruct IH as (cod & ->); [intros c Hc; apply Hin; by right|].
  by eexists.
Qed.

Lemma _codificar_texto_length texto (d : dict ascii str) cod :
  _codificar_texto texto d = Ok cod ->
  (forall c w, (c, w) ∈ d -> w ≠ []) ->
  (length texto <= length cod)%nat.
Proof.
  revert cod. induction texto as [|a texto IH]; intros cod; simpl; [lia|].
  unfold dict_item. destruct (dict_get d a) as [w|] eqn:Hw; [|done].
  rewrite rbind_Ok. destruct (_codificar_texto texto d) as [resto|]; [|done].
  rewrite rbind_Ok. intros [= <-] Hne.
  specialize (IH resto eq_refl Hne). rewrite length_app.
  assert (w ≠ []) as Hw' by (by eapply Hne, dict_get_Some).
  destruct w; [done|]. simpl. lia.
Qed.

(** [comprimir] on a non-empty text, given the tree the construction sets. *)
Lemma comprimir_con_arbol texto r :
  texto ≠ [] ->
  (forall self,
     construir_desde_frecuencias (Counter texto) self
     = (Ok tt, {| raiz := Some r; codigos := codigos self |})) ->
  completo r -> hojas r ≡ₚ dict_keys (Counter texto) ->
  exists cod,
    _codificar_texto texto (codigos_arbol r) = Ok cod
    /\ forall t0 t1 self,
        comprimir texto t0 t1 self
        = (Ok (cod, codigos_arbol r, Some r, estadisticas_de texto cod r t0 t1),
           {| arbol := {| raiz := Some r; codigos := codigos_arbol r |};
              estadisticas := estadisticas_de texto cod r t0 t1 |}).
Proof.
  intros Hne Hcons Hr Hhojas.
  destruct (Counter_keys texto) as [Hnd Hkeys].
  assert (NoDup (hojas r)) as Hndr by (by rewrite Hhojas).
  destruct (_codificar_texto_ok texto (codigos_arbol r)) as (cod & Hcod).
  { intros c Hc. apply codigos_arbol_keys; [done|]. rewrite Hhojas. by apply Hkeys. }
  exists cod. split; [done|].
  intros t0 t1 self. destruct texto as [|a texto]; [done|].
  unfold comprimir, calcular_frecuencias.
  unfold mbind, M_bind, mbindM, en_arbol, mlift, mget, set_estadisticas, mret.
  rewrite Hcons. cbn [arbol estadisticas].
  rewrite generar_codigos_ok by done. cbn [arbol estadisticas].
  by rewrite Hcod.
Qed.

(** On a non-empty text [comprimir] returns; the tree, the codes and the
    encoding it returns depend on the text alone. *)
Lemma comprimir_ok texto :
  texto ≠ [] ->
  exists r cod,
    completo r /\ hojas r ≡ₚ dict_keys (Counter texto)
    /\ _codificar_texto texto (codigos_arbol r) = Ok cod
    /\ forall t0 t1 self,
        comprimir texto t0 t1 self
        = (Ok (cod, codigos_arbol r, Some r, estadisticas_de texto cod r t0 t1),
           {| arbol := {| raiz := Some r; codigos := codigos_arbol r |};
              estadisticas := estadisticas_de texto cod r t0 t1 |}).
Proof.
  intros Hne.
  destruct (construir_ok (Counter texto)) as (r & Hcons & Hr & Hhojas).
  { by apply Counter_no_vacio. }
  destruct (comprimir_con_arbol texto r) as (cod & Hcod & Hcomp); [done..|].
  by exists r, cod.
Qed.

(** Encoding with the codes of a branching tree and decoding with the tree. *)
Lemma decodificar_codificado raiz :
  completo raiz -> caracter raiz = None ->
  forall texto cod,
  _codificar_texto texto (codigos_de raiz []) = Ok cod ->
  forall resto acc,
  decodificar_bits raiz (cod ++ resto) raiz acc
  = decodificar_bits raiz resto raiz (acc ++ texto).
Proof.
  intros Hraiz Hint.
  induction texto as [|a texto IH]; intros cod; simpl.
  - intros [= <-] resto acc. by rewrite app_nil_r.
  - unfold dict_item. destruct (dict_get _ a) as [w|] eqn:Hw; [|done].
    rewrite rbind_Ok.
    destruct (_codificar_texto texto _) as [cod'|]; [|done].
    rewrite rbind_Ok. intros [= <-] resto acc.
    apply dict_get_Some in Hw.
    destruct Hraiz as [|f l r Hl Hr]; [done|].
    rewrite <- (assoc (++)).
    apply codigos_de_padre in Hw as [(w' & -> & Hw)|(w' & -> & Hw)]; [| |done..].
    + rewrite <- app_comm_cons.
      rewrite (decodificar_bits_codigo l Hl a w' Hw) by done.
      rewrite (IH cod' eq_refl). by rewrite <- (assoc (++)).
    + rewrite <- app_comm_cons.
      rewrite (decodificar_bits_codigo r Hr a w' Hw) by done.
      rewrite (IH cod' eq_refl). by rewrite <- (assoc (++)).
Qed.

(** A text over one symbol is encoded with one digit per occurrence. *)
Lemma _codificar_texto_un_simbolo c texto :
  Forall (fun x => x = c) texto ->
  _codificar_texto texto [(c, ["0"%char])] = Ok (repeat "0"%char (length texto)).
Proof.
  induction 1 as [|a texto -> _ IH]; simpl; [done|].
  unfold dict_item. simpl. rewrite decide_True by done.
  by rewrite rbind_Ok, IH.
Qed.

Lemma repeat_un_simbolo (c : ascii) texto :
  Forall (fun x => x = c) texto -> repeat c (length texto) = texto.
Proof. induction 1 as [|a texto -> _ IH]; simpl; [done | by rewrite IH]. Qed.

(** With a root that is a leaf every digit stands for one occurrence. *)
Lemma descomprimir_hoja r c cod t0 t1 :
  caracter r = Some c -> cod ≠ [] ->
  descomprimir cod (Some r) t0 t1
  = Ok (repeat c (length cod),
        [ ("tiempo_descompresion", VFloat (t1 - t0));
          ("longitud_decodificada", VInt (Z.of_nat (length (repeat c (length cod)))));
          ("exito", VBool true) ]).
Proof.
  intros Hc Hne. destruct cod as [|b cod]; [done|].
  unfold descomprimir. by rewrite Hc.
Qed.

(** [descomprimir] undoes the encoding of any text over the leaves of a
    full tree, whatever the clock says. *)
Lemma descomprimir_codificado r texto cod t0 t1 :
  completo r -> texto ≠ [] -> (forall c, c ∈ texto -> c ∈ hojas r) ->
  _codificar_texto texto (codigos_arbol r) = Ok cod ->
  exists stats, descomprimir cod (Some r) t0 t1 = Ok (texto, stats)
                /\ dict_get stats "exito" = Some (VBool true).
Proof.
  intros Hr Hne Hin Hcod. unfold codigos_arbol in Hcod.
  destruct Hr as [c f|f l rr Hl Hrr]; cbn [caracter nodo_hoja nodo_padre] in Hcod.
  - assert (Forall (fun x => x = c) texto) as Hall.
    { apply Forall_forall. intros x Hx. specialize (Hin x Hx).
      by apply list_elem_of_singleton in Hin. }
    rewrite _codificar_texto_un_simbolo in Hcod by done. injection Hcod as <-.
    rewrite (descomprimir_hoja _ c) by (by destruct texto).
    rewrite repeat_length, repeat_un_simbolo by done.
    eexists. split; [done|]. done.
  - pose proof (decodificar_codificado (nodo_padre f l rr)) as Hdec.
    specialize (Hdec (completo_padre f l rr Hl Hrr) eq_refl texto cod Hcod [] []).
    rewrite app_nil_r in Hdec. simpl in Hdec.
    assert (cod ≠ []) as Hcne.
    { intros ->. apply _codificar_texto_length in Hcod.
      - destruct texto; [done|]. simpl in Hcod. lia.
      - intros c w. by apply codigos_de_no_vacio. }
    destruct cod as [|b cod]; [done|]. unfold descomprimir.
    cbn [caracter nodo_padre]. rewrite Hdec, !rbind_Ok.
    eexists. split; [done|]. done.
Qed.

(** * The claims *)

(** The mixed-frequency text of the test suite. *)
Example ejemplo_frecuencias_AABBC :
  calcular_frecuencias (texto_de "AABBC")
  = [("A"%char, 2); ("B"%char, 2); ("C"%char, 1)].
Proof. reflexivity. Qed.

Example ejemplo_comprimir_AABBC :
  (comprimir (texto_de "AABBC") 0 1 compresor_nuevo).1
  = Ok (texto_de "00111110",
        [("A"%char, texto_de "0"); ("C"%char, texto_de "10");
         ("B"%char, texto_de "11")],
        Some (nodo_padre 5 (nodo_hoja "A" 2)
                (nodo_padre 3 (nodo_hoja "C" 1) (nodo_hoja "B" 2))),
        [ ("longitud_original", VInt 5); ("longitud_comprimida", VInt 8);
          ("bits_originales", VInt 40); ("bits_comprimidos", VInt 8);
          ("tasa_compresion", VFloat (S754_finite false 5629499534213120 (-46)));
          ("factor_compresion", VFloat (S754_finite false 5629499534213120 (-50)));
          ("bits_ahorrados", VInt 32); ("tiempo_compresion", VFloat 1);
          ("altura", VInt 2); ("num_hojas", VInt 3);
          ("num_nodos_internos", VInt 2);
          ("longitud_promedio_codigo",
           VFloat (S754_finite false 7505999378950827 (-52))) ]).
Proof. vm_compute. reflexivity. Qed.

Example ejemplo_descomprimir_AABBC :
  descomprimir (texto_de "00111110")
    (Some (nodo_padre 5 (nodo_hoja "A" 2)
             (nodo_padre 3 (nodo_hoja "C" 1) (nodo_hoja "B" 2)))) 0 1
  = Ok (texto_de "AABBC",
        [ ("tiempo_descompresion", VFloat (1 - 0));
          ("longitud_decodificada", VInt 5); ("exito", VBool true) ]).
Proof. reflexivity. Qed.

Lemma texto_en_hojas texto r :
  hojas r ≡ₚ dict_keys (Counter texto) -> forall c, c ∈ texto -> c ∈ hojas r.
Proof.
  intros Hhojas c Hc. rewrite Hhojas. by apply (Counter_keys texto).
Qed.

(** C1 (round trip). For every text, the empty one and the ones that repeat
    a single symbol included, [comprimir] returns, and [descomprimir] applied
    to the encoded output and to the tree of that same call returns the
    text, whatever the state of the compressor and the clock readings. *)
Theorem C1_round_trip (texto : str) (t0 t1 t0' t1' : float64) (self : CompresorHuffman) :
  exists cod codigos raiz stats self' stats',
    comprimir texto t0 t1 self = (Ok (cod, codigos, raiz, stats), self')
    /\ descomprimir cod raiz t0' t1' = Ok (texto, stats').
Proof.
  destruct (decide (texto = [])) as [->|Hne].
  - by eexists [], [], None, _, self, _.
  - destruct (comprimir_ok texto Hne) as (r & cod & Hr & Hhojas & Hcod & Hcomp).
    destruct (descomprimir_codificado r texto cod t0' t1') as (stats' & Hdesc & _);
      [done | done | by apply texto_en_hojas | done |].
    eexists cod, _, (Some r), _, _, stats'. by rewrite Hcomp.
Qed.

(** C3 (prefix-free code book). The code book [comprimir] returns for a
    non-empty text has one entry for each symbol of the text and no other;
    every code is a non-empty sequence of the digits 0 and 1; and of the
    codes of two different symbols neither is a prefix of the other (so the
    two codes differ). *)
Theorem C3_codebook_prefix_free (texto : str) (t0 t1 : float64) (self : CompresorHuffman) :
  texto ≠ [] ->
  exists cod codigos raiz stats self',
    comprimir texto t0 t1 self = (Ok (cod, codigos, raiz, stats), self')
    /\ NoDup (dict_keys codigos)
    /\ (forall c, c ∈ dict_keys codigos <-> c ∈ texto)
    /\ (forall c w, (c, w) ∈ codigos -> w ≠ [] /\ Forall es_digito w)
    /\ (forall c1 w1 c2 w2,
          (c1, w1) ∈ codigos -> (c2, w2) ∈ codigos -> c1 ≠ c2 ->
          w1 ≠ w2 /\ ~ w1 `prefix_of` w2).
Proof.
  intros Hne.
  destruct (comprimir_ok texto Hne) as (r & cod & Hr & Hhojas & Hcod & Hcomp).
  destruct (Counter_keys texto) as [Hnd Hkeys].
  eexists cod, _, (Some r), _, _. split; [by rewrite Hcomp|].
  assert (forall c, c ∈ dict_keys (codigos_arbol r) <-> c ∈ texto) as Hdom.
  { intros c. rewrite codigos_arbol_keys, Hhojas by done. apply Hkeys. }
  split_and!; [|done|..]; unfold codigos_arbol in *.
  - destruct (caracter r) eqn:Hc.
    + apply NoDup_singleton.
    + rewrite codigos_de_keys by done. by rewrite Hhojas.
  - intros c w Hin. destruct Hr as [c0 f|f l rr Hl Hrr]; cbn [caracter nodo_hoja nodo_padre] in Hin.
    + apply list_elem_of_singleton in Hin as [= -> ->].
      split; [done|]. repeat constructor.
    + split; [exact (codigos_de_no_vacio f l rr c w Hl Hrr Hin)|].
      exact (codigos_de_digitos _ (completo_padre f l rr Hl Hrr) c w Hin).
  - intros c1 w1 c2 w2 H1 H2 Hdif.
    destruct (caracter r) eqn:Hc.
    + apply list_elem_of_singleton in H1 as [= -> ->].
      by apply list_elem_of_singleton in H2 as [= -> ->].
    + split.
      * intros ->. by destruct (codigos_de_libre_de_prefijos r Hr c1 w2 c2 w2).
      * intros Hpre. by destruct (codigos_de_libre_de_prefijos r Hr c1 w1 c2 w2).
Qed.

Lemma C3_codebook_prefix_free_witness :
  texto_de "AABBC" ≠ []
  /\ exists cod codigos raiz stats self',
      comprimir (texto_de "AABBC") 0 1 compresor_nuevo
      = (Ok (cod, codigos, raiz, stats), self')
      /\ NoDup (dict_keys codigos)
      /\ (forall c, c ∈ dict_keys codigos <-> c ∈ texto_de "AABBC")
      /\ (forall c w, (c, w) ∈ codigos -> w ≠ [] /\ Forall es_digito w)
      /\ (forall c1 w1 c2 w2,
            (c1, w1) ∈ codigos -> (c2, w2) ∈ codigos -> c1 ≠ c2 ->
            w1 ≠ w2 /\ ~ w1 `prefix_of` w2).
Proof.
  split; [done|]. apply (C3_codebook_prefix_free (texto_de "AABBC")). done.
Defined.

Lemma Counter_repetido c texto :
  texto ≠ [] -> Forall (fun x => x = c) texto ->
  Counter texto = [(c, Z.of_nat (length texto))].
Proof.
  intros Hne Hall. destruct texto as [|a texto]; [done|].
  apply Forall_cons in Hall as [-> Hall]. unfold Counter.
  cbn [fold_left]. change (contar [] c) with [(c, 1)].
  rewrite Counter_un_simbolo by done. do 2 f_equal. simpl length. lia.
Qed.

(** C5 (single-symbol alphabet). For a non-empty text whose symbols all
    equal [c], [comprimir] returns the code book that maps [c] to the
    one-digit code 0, an encoded output of one digit 0 for each occurrence,
    and a tree that is a single leaf holding [c] and the length of the text,
    with no internal node; [descomprimir] on that output and that tree
    returns the text. *)
Theorem C5_single_symbol (c : ascii) (texto : str) (t0 t1 t0' t1' : float64)
        (self : CompresorHuffman) :
  texto ≠ [] -> Forall (fun x => x = c) texto ->
  let hoja := nodo_hoja c (Z.of_nat (length texto)) in
  let cod := repeat "0"%char (length texto) in
  _contar_nodos_internos hoja = 0
  /\ exists stats self' stats',
      comprimir texto t0 t1 self
      = (Ok (cod, [(c, ["0"%char])], Some hoja, stats), self')
      /\ descomprimir cod (Some hoja) t0' t1' = Ok (texto, stats').
Proof.
  intros Hne Hall hoja cod. split; [done|].
  destruct (comprimir_con_arbol texto hoja) as (cod' & Hcod & Hcomp).
  - done.
  - intros self0. rewrite (Counter_repetido c) by done.
    unfold construir_desde_frecuencias, mbind, M_bind, mbindM, mlift, dict_item.
    simpl. by rewrite decide_True.
  - constructor.
  - by rewrite (Counter_repetido c).
  - change (codigos_arbol hoja) with [(c, ["0"%char])] in *.
    rewrite _codificar_texto_un_simbolo in Hcod by done. injection Hcod as <-.
    eexists _, _, _. split; [by rewrite Hcomp|].
    rewrite (descomprimir_hoja hoja c) by (by destruct texto).
    subst cod. by rewrite repeat_length, repeat_un_simbolo.
Qed.

Lemma C5_single_symbol_witness :
  texto_de "AAAAA" ≠ [] /\ Forall (fun x => x = "A"%char) (texto_de "AAAAA")
  /\ exists stats self' stats',
      comprimir (texto_de "AAAAA") 0 1 compresor_nuevo
      = (Ok (texto_de "00000", [("A"%char, texto_de "0")],
             Some (nodo_hoja "A" 5), stats), self')
      /\ descomprimir (texto_de "00000") (Some (nodo_hoja "A" 5)) 0 1
         = Ok (texto_de "AAAAA", stats').
Proof.
  assert (texto_de "AAAAA" ≠ []) as Hne by done.
  assert (Forall (fun x => x = "A"%char) (texto_de "AAAAA")) as Hall
    by (by repeat constructor).
  split_and!; [done..|].
  exact (proj2 (C5_single_symbol "A" (texto_de "AAAAA") 0 1 0 1 compresor_nuevo
                                 Hne Hall)).
Defined.

(** C6 (empty input). On the empty text [comprimir] returns the empty
    encoded output, the empty code book, no tree and statistics whose
    entries are all zero, and leaves the compressor as it was;
    [descomprimir] returns the empty text when the tree is absent and when
    the encoded output is empty. *)
Theorem C6_empty_input (t0 t1 : float64) (self : CompresorHuffman)
        (cod : str) (raiz : option NodoHuffman) :
  comprimir [] t0 t1 self
  = (Ok ([], [], None,
         [ ("longitud_original", VInt 0); ("longitud_comprimida", VInt 0);
           ("bits_originales", VInt 0); ("bits_comprimidos", VInt 0);
           ("tasa_compresion", VInt 0); ("factor_compresion", VInt 0);
           ("bits_ahorrados", VInt 0); ("tiempo_compresion", VInt 0) ]),
     self)
  /\ (exists stats, descomprimir cod None t0 t1 = Ok ([], stats))
  /\ (exists stats, descomprimir [] raiz t0 t1 = Ok ([], stats)).
Proof.
  split_and!; [done | |by eexists].
  destruct cod; by eexists.
Qed.

Lemma combinar_entradas fuel : forall heap r,
  combinar fuel heap = Ok [r] ->
  entradas_hojas r ≡ₚ heap ≫= entradas_hojas.
Proof.
  induction fuel as [|fuel IH]; intros heap r; cbn [combinar].
  - destruct (decide (1 < length heap)%nat); [discriminate|].
    intros [= ->]. by rewrite bind_singleton.
  - destruct (decide (1 < length heap)%nat) as [Hlen|Hlen].
    2:{ intros [= ->]. by rewrite bind_singleton. }
    destruct (heappop_ok heap) as (izq & h1 & -> & Hp1).
    { intros ->. simpl in Hlen. lia. }
    rewrite rbind_Ok.
    destruct (heappop_ok h1) as (der & h2 & -> & Hp2).
    { intros ->. rewrite Hp1 in Hlen. simpl in Hlen. lia. }
    rewrite rbind_Ok.
    destruct (heappush_ok h2 (nodo_padre (frecuencia izq + frecuencia der) izq der))
      as (h3 & -> & Hp3).
    rewrite rbind_Ok. intros Hcomb. rewrite (IH h3 r Hcomb).
    rewrite Hp3, Hp1, Hp2, !bind_cons. simpl. by rewrite (assoc (++)).
Qed.

Lemma hojas_de_entradas items : hojas_de items ≫= entradas_hojas = items.
Proof.
  induction items as [|[c f] items IH]; [done|].
  unfold hojas_de in *. by rewrite !fmap_cons, bind_cons, IH.
Qed.

Lemma entradas_hojas_hojas n : (entradas_hojas n).*1 = hojas n.
Proof.
  assert (forall o : option NodoHuffman,
            (forall m, o = Some m -> (entradas_hojas m).*1 = hojas m) ->
            (match o with Some m => entradas_hojas m | None => [] end).*1
            = match o with Some m => hojas m | None => [] end) as Hop.
  { intros [m|] Hm; [by apply Hm | done]. }
  revert n. fix IH 1. intros [[c|] f izq der]; simpl; [done|].
  rewrite fmap_app. f_equal; apply Hop.
  - destruct izq as [l|]; intros m [= <-]. apply IH.
  - destruct der as [r|]; intros m [= <-]. apply IH.
Qed.

(** The tree of a table with an entry: it is full and its leaves are the
    entries of the table, each with its frequency. *)
Lemma construir_entradas (frecuencias : dict ascii Z) :
  frecuencias ≠ [] ->
  exists r,
    (forall self,
       construir_desde_frecuencias frecuencias self
       = (Ok tt, {| raiz := Some r; codigos := codigos self |}))
    /\ completo r /\ entradas_hojas r ≡ₚ frecuencias.
Proof.
  intros Hne. destruct frecuencias as [|[c f] resto]; [done|].
  unfold construir_desde_frecuencias.
  destruct (decide (length ((c, f) :: resto) = 1%nat)) as [Huno|Hvarios].
  - destruct resto; [|done].
    exists (nodo_hoja c f). split_and!; [|constructor|done].
    intros self. unfold mbind, M_bind, mbindM, mlift, dict_item. simpl.
    by rewrite decide_True.
  - destruct (insertar_hojas_ok ((c, f) :: resto) []) as (heap & Hins & Hperm).
    rewrite app_nil_r in Hperm.
    destruct (combinar_ok (length heap) heap) as (r & Hcomb & Hcomp & Hhojas).
    { lia. } { intros ->. by apply Permutation_nil_cons in Hperm. }
    exists r. split_and!.
    + intros self. unfold mbind, M_bind, mbindM, mlift. by rewrite Hins, Hcomb.
    + apply Hcomp. rewrite Hperm. apply hojas_de_completo.
    + by rewrite (combinar_entradas _ _ _ Hcomb), Hperm, hojas_de_entradas.
Qed.

(** C7 (empty alphabet). [construir_desde_frecuencias] raises [ValueError]
    exactly when the table has no entry, and then the tree object is left as
    it was; on every table with an entry it returns and sets as root a full
    tree (a leaf, or a node with two subtrees) whose leaves are the entries
    of the table, each character with its frequency, leaving the codes of
    the object untouched. *)
Theorem C7_empty_alphabet (frecuencias : dict ascii Z) (self : ArbolHuffman) :
  ((construir_desde_frecuencias frecuencias self).1 = Raise ValueError
   <-> frecuencias = [])
  /\ (frecuencias = [] ->
      construir_desde_frecuencias frecuencias self = (Raise ValueError, self))
  /\ (frecuencias ≠ [] ->
      exists r, construir_desde_frecuencias frecuencias self
                = (Ok tt, {| raiz := Some r; codigos := codigos self |})
                /\ completo r
                /\ entradas_hojas r ≡ₚ frecuencias
                /\ hojas r ≡ₚ dict_keys frecuencias).
Proof.
  split_and!.
  - split; [|by intros ->].
    destruct (decide (frecuencias = [])) as [|Hne]; [done|].
    destruct (construir_entradas frecuencias Hne) as (r & Hcons & _).
    by rewrite Hcons.
  - by intros ->.
  - intros Hne. destruct (construir_entradas frecuencias Hne) as (r & Hcons & Hr & Hent).
    exists r. split_and!; [done..|].
    rewrite <- entradas_hojas_hojas. unfold dict_keys. by rewrite Hent.
Qed.

(** C9 (decoding is total on constructed trees). On a table with an entry
    [construir_desde_frecuencias] sets a root all of whose nodes are a leaf
    without children or a parent with both children, and [descomprimir] with
    that root returns a text for every string of digits: the walk never
    steps to a missing child. *)
Theorem C9_decoding_total (frecuencias : dict ascii Z) (self : ArbolHuffman)
        (bits : str) (t0 t1 : float64) :
  frecuencias ≠ [] ->
  exists r,
    construir_desde_frecuencias frecuencias self
    = (Ok tt, {| raiz := Some r; codigos := codigos self |})
    /\ completo r
    /\ exists texto stats, descomprimir bits (Some r) t0 t1 = Ok (texto, stats).
Proof.
  intros Hne. destruct (construir_ok frecuencias Hne) as (r & Hcons & Hr & _).
  exists r. split_and!; [done..|].
  destruct bits as [|bit bits]; [by eexists _, _|].
  destruct (caracter r) as [c|] eqn:Hc.
  - rewrite (descomprimir_hoja r c) by done. by eexists _, _.
  - destruct (decodificar_bits_total r Hr Hc (bit :: bits) r [] Hr Hc)
      as (n' & acc' & Hdec & _).
    unfold descomprimir. rewrite Hc, Hdec, !rbind_Ok. by eexists _, _.
Qed.

Lemma C9_decoding_total_witness :
  [("A"%char, 2); ("B"%char, 2); ("C"%char, 1)] ≠ []
  /\ exists r,
      construir_desde_frecuencias [("A"%char, 2); ("B"%char, 2); ("C"%char, 1)]
                                  arbol_vacio
      = (Ok tt, {| raiz := Some r; codigos := [] |})
      /\ completo r
      /\ exists texto stats,
          descomprimir (texto_de "0110111") (Some r) 0 1 = Ok (texto, stats).
Proof.
  split; [done|].
  apply (C9_decoding_total [("A"%char, 2); ("B"%char, 2); ("C"%char, 1)]
                           arbol_vacio (texto_de "0110111") 0 1).
  done.
Defined.

Lemma descomprimir_exito cod r t0 t1 texto stats :
  cod ≠ [] -> descomprimir cod (Some r) t0 t1 = Ok (texto, stats) ->
  dict_get stats "exito" = Some (VBool true).
Proof.
  intros Hne. destruct cod as [|b cod]; [done|]. unfold descomprimir.
  destruct (caracter r).
  - rewrite rbind_Ok. by intros [= <- <-].
  - destruct (decodificar_bits r (b :: cod) r []) as [[n acc]|].
    + rewrite !rbind_Ok. by intros [= <- <-].
    + by rewrite !rbind_Raise.
Qed.

(** C10 (success flag). Whenever [descomprimir] returns, the entry [exito]
    of its statistics is [False] if the encoded text is empty or the tree is
    absent, in which case the text returned is empty, and [True] otherwise. *)
Theorem C10_exito_flag (cod : str) (raiz : option NodoHuffman) (t0 t1 : float64)
        (texto : str) (stats : dict string Valor) :
  descomprimir cod raiz t0 t1 = Ok (texto, stats) ->
  (cod = [] \/ raiz = None ->
   dict_get stats "exito" = Some (VBool false) /\ texto = [])
  /\ (cod ≠ [] /\ raiz ≠ None -> dict_get stats "exito" = Some (VBool true))
  /\ (dict_get stats "exito" = Some (VBool false) <-> cod = [] \/ raiz = None).
Proof.
  intros Hdesc.
  destruct (decide (cod = [] \/ raiz = None)) as [Hvacio|Hlleno].
  - assert (texto = [] /\ dict_get stats "exito" = Some (VBool false)) as [-> Hex].
    { unfold descomprimir in Hdesc.
      destruct cod as [|b cod]; [by simplify_eq|].
      destruct raiz as [r|]; [by destruct Hvacio | by simplify_eq]. }
    split_and!; [done | |done].
    intros [Hc Hr]. by destruct Hvacio.
  - assert (cod ≠ [] /\ exists r, raiz = Some r) as (Hc & r & ->).
    { split; [tauto|]. destruct raiz as [r|]; [by exists r | tauto]. }
    rewrite (descomprimir_exito cod r t0 t1 texto stats Hc Hdesc).
    split_and!; done.
Qed.

Lemma C10_exito_flag_witness :
  descomprimir (texto_de "01") (Some (nodo_padre 2 (nodo_hoja "A" 1) (nodo_hoja "B" 1))) 0 1
  = Ok (texto_de "AB",
        [ ("tiempo_descompresion", VFloat (1 - 0));
          ("longitud_decodificada", VInt 2); ("exito", VBool true) ])
  /\ dict_get [ ("tiempo_descompresion", VFloat (1 - 0));
               ("longitud_decodificada", VInt 2); ("exito", VBool true) ] "exito"
     = Some (VBool true).
Proof.
  assert (descomprimir (texto_de "01")
            (Some (nodo_padre 2 (nodo_hoja "A" 1) (nodo_hoja "B" 1))) 0 1
          = Ok (texto_de "AB",
                [ ("tiempo_descompresion", VFloat (1 - 0));
                  ("longitud_decodificada", VInt 2); ("exito", VBool true) ]))
    as Hdesc by reflexivity.
  split; [exact Hdesc|].
  apply (C10_exito_flag _ _ _ _ _ _ Hdesc). done.
Defined.

(** A stream that stops inside a code leaves the cursor on a parent. *)
Lemma decodificar_bits_prefijo n :
  completo n -> forall c w1 w2, (c, w1 ++ w2) ∈ codigos_de n [] -> w2 ≠ [] ->
  forall raiz bit nodo_actual acc,
  hijo bit nodo_actual = Some n ->
  exists n', decodificar_bits raiz (bit :: w1) nodo_actual acc = Ok (n', acc)
             /\ caracter n' = None.
Proof.
  unfold hijo.
  induction 1 as [c0 f|f l r Hl IHl Hr IHr];
    intros c w1 w2 Hin Hw2 raiz bit nodo_actual acc Hhijo;
    cbn [decodificar_bits]; rewrite Hhijo.
  - apply list_elem_of_singleton in Hin as [= -> Hnil].
    by apply app_eq_nil in Hnil as [_ ->].
  - cbn [caracter nodo_padre]. destruct w1 as [|b w1].
    + by exists (nodo_padre f l r).
    + apply codigos_de_padre in Hin
        as [(w' & [= -> <-] & Hin)|(w' & [= -> <-] & Hin)]; [| |done..].
      * by apply (IHl c w1 w2).
      * by apply (IHr c w1 w2).
Qed.

(** C2, the claim as stated fails: with the tree of the text AABBC, whose
    root is a parent, the digits 01 are the code of A followed by the first
    digit of a two-digit code; the walk ends on a parent that is not the
    root, and [descomprimir] returns the text A with [exito] set. *)
Lemma C2_counterexample :
  let subarbol := nodo_padre 3 (nodo_hoja "C" 1) (nodo_hoja "B" 2) in
  let r := nodo_padre 5 (nodo_hoja "A" 2) subarbol in
  (exists cod codigos stats self',
      comprimir (texto_de "AABBC") 0 1 compresor_nuevo
      = (Ok (cod, codigos, Some r, stats), self'))
  /\ es_hoja r = false
  /\ decodificar_bits r (texto_de "01") r [] = Ok (subarbol, texto_de "A")
  /\ es_hoja subarbol = false
  /\ descomprimir (texto_de "01") (Some r) 0 1
     = Ok (texto_de "A",
           [ ("tiempo_descompresion", VFloat (1 - 0));
             ("longitud_decodificada", VInt 1); ("exito", VBool true) ]).
Proof.
  split_and!; [|reflexivity..]. eexists _, _, _, _. vm_compute. reflexivity.
Qed.

(** C2, amended. With a full tree whose root is a parent, when the digits
    are the encoding of a text followed by a non-empty proper prefix of a
    code, the walk ends on a parent and [descomprimir] does not fail: it
    returns the text, without the unfinished code, and sets [exito]. *)
Theorem C2_truncated_code_dropped (r : NodoHuffman) (texto cod : str)
        (c : ascii) (w1 w2 : str) (t0 t1 : float64) :
  completo r -> caracter r = None ->
  _codificar_texto texto (codigos_de r []) = Ok cod ->
  (c, w1 ++ w2) ∈ codigos_de r [] -> w1 ≠ [] -> w2 ≠ [] ->
  (exists n, decodificar_bits r (cod ++ w1) r [] = Ok (n, texto)
             /\ caracter n = None)
  /\ exists stats,
      descomprimir (cod ++ w1) (Some r) t0 t1 = Ok (texto, stats)
      /\ dict_get stats "exito" = Some (VBool true).
Proof.
  intros Hr Hc Hcod Hin Hw1 Hw2.
  assert (exists n, decodificar_bits r (cod ++ w1) r [] = Ok (n, texto)
                    /\ caracter n = None) as (n & Hdec & Hn).
  { rewrite (decodificar_codificado r Hr Hc texto cod Hcod). simpl.
    destruct w1 as [|b w1]; [done|].
    destruct Hr as [|f l rr Hl Hrr]; [done|].
    apply codigos_de_padre in Hin
      as [(w' & [= -> <-] & Hin)|(w' & [= -> <-] & Hin)]; [| |done..].
    - by apply (decodificar_bits_prefijo l Hl c w1 w2).
    - by apply (decodificar_bits_prefijo rr Hrr c w1 w2). }
  split; [by exists n|].
  assert (cod ++ w1 ≠ []) as Hne by (by destruct cod, w1).
  unfold descomprimir. destruct (cod ++ w1) as [|b bits] eqn:Hbits; [done|].
  rewrite Hc, Hdec, !rbind_Ok. by eexists.
Qed.

Lemma C2_truncated_code_dropped_witness :
  let r := nodo_padre 5 (nodo_hoja "A" 2)
                      (nodo_padre 3 (nodo_hoja "C" 1) (nodo_hoja "B" 2)) in
  (exists n, decodificar_bits r (texto_de "011" ++ texto_de "1") r []
             = Ok (n, texto_de "AB")
             /\ caracter n = None)
  /\ exists stats,
      descomprimir (texto_de "011" ++ texto_de "1") (Some r) 0 1
      = Ok (texto_de "AB", stats)
      /\ dict_get stats "exito" = Some (VBool true).
Proof.
  intros r.
  apply (C2_truncated_code_dropped r (texto_de "AB") (texto_de "011")
           "C" (texto_de "1") (texto_de "0") 0 1).
  - repeat constructor.
  - reflexivity.
  - reflexivity.
  - vm_compute. apply list_elem_of_In. simpl. tauto.
  - done.
  - done.
Defined.

(** C4, the claim as stated fails. [__lt__] orders two different nodes of
    equal weight in neither direction, and no key of the symbol and the
    insertion number explains the extractions: from the table of ABC the
    leaf B leaves the heap before the leaf C, from the table of ABCD the
    leaf C leaves it before the leaf B. *)
Lemma C4_counterexample :
  (nodo_lt (nodo_hoja "A" 1) (nodo_hoja "B" 1) = false
   /\ nodo_lt (nodo_hoja "B" 1) (nodo_hoja "A" 1) = false)
  /\ primera_fusion (Counter (texto_de "ABC"))
     = Ok (nodo_hoja "A" 1, nodo_hoja "B" 1, [nodo_hoja "C" 1])
  /\ primera_fusion (Counter (texto_de "ABCD"))
     = Ok (nodo_hoja "A" 1, nodo_hoja "C" 1, [nodo_hoja "B" 1; nodo_hoja "D" 1])
  /\ ~ exists clave, desempate_por_clave clave.
Proof.
  assert (primera_fusion (Counter (texto_de "ABC"))
          = Ok (nodo_hoja "A" 1, nodo_hoja "B" 1, [nodo_hoja "C" 1])) as H3
    by (vm_compute; reflexivity).
  assert (primera_fusion (Counter (texto_de "ABCD"))
          = Ok (nodo_hoja "A" 1, nodo_hoja "C" 1,
                [nodo_hoja "B" 1; nodo_hoja "D" 1])) as H4
    by (vm_compute; reflexivity).
  split_and!; [done..|].
  intros [clave Hclave].
  assert (NoDup (dict_keys (Counter (texto_de "ABC")))) as Hnd3
    by apply Counter_keys.
  assert (NoDup (dict_keys (Counter (texto_de "ABCD")))) as Hnd4
    by apply Counter_keys.
  pose proof (Hclave _ _ _ _ 1%nat 2%nat "B"%char "C"%char 1 Hnd3 ltac:(lia) H3
                eq_refl eq_refl eq_refl) as Hbc.
  pose proof (Hclave _ _ _ _ 2%nat 1%nat "C"%char "B"%char 1 Hnd4 ltac:(lia) H4
                eq_refl eq_refl eq_refl) as Hcb.
  assert (clave "B"%char 1%nat < clave "C"%char 2%nat) by (apply Hbc; left).
  assert (clave "C"%char 2%nat < clave "B"%char 1%nat) by (apply Hcb; left).
  lia.
Qed.

(** C4, amended. [__lt__] compares the weights alone, so a tie is resolved
    by the places of the nodes in the heap; [comprimir] is nevertheless a
    function of the text: two calls on the same text, whatever the states of
    the compressor and the clock readings, return the same encoded output,
    the same code book and the same tree. *)
Theorem C4_deterministic (texto : str) (t0 t1 t0' t1' : float64)
        (self self' : CompresorHuffman) :
  (forall a b, nodo_lt a b = (frecuencia a <? frecuencia b))
  /\ exists cod codigos raiz stats stats' fin fin',
      comprimir texto t0 t1 self = (Ok (cod, codigos, raiz, stats), fin)
      /\ comprimir texto t0' t1' self' = (Ok (cod, codigos, raiz, stats'), fin').
Proof.
  split; [done|].
  destruct (decide (texto = [])) as [->|Hne].
  - by eexists [], [], None, _, _, self, self'.
  - destruct (comprimir_ok texto Hne) as (r & cod & _ & _ & _ & Hcomp).
    eexists cod, _, (Some r), _, _, _, _. by rewrite !Hcomp.
Qed.

Lemma codigos_arbol_no_vacio r c w :
  completo r -> (c, w) ∈ codigos_arbol r -> w ≠ [].
Proof.
  unfold codigos_arbol. destruct 1 as [c0 f|f l rr Hl Hrr]; cbn [caracter nodo_hoja nodo_padre].
  - by intros [= -> ->]%list_elem_of_singleton.
  - by apply codigos_de_no_vacio.
Qed.

(** The statistics of a non-empty text, entry by entry. *)
Lemma _generar_estadisticas_no_vacio texto cod tiempo :
  texto ≠ [] ->
  let n := Z.of_nat (length texto) in
  let m := Z.of_nat (length cod) in
  _generar_estadisticas texto cod tiempo
  = [ ("longitud_original", VInt n);
      ("longitud_comprimida", VInt m);
      ("bits_originales", VInt (n * 8));
      ("bits_comprimidos", VInt m);
      ("tasa_compresion",
       VFloat (div_enteros (n * 8 - m) (n * 8) * float_de_Z 100));
      ("factor_compresion",
       if decide (m > 0) then VFloat (div_enteros (n * 8) m) else VInt 0);
      ("bits_ahorrados", VInt (n * 8 - m));
      ("tiempo_compresion", tiempo) ].
Proof.
  intros Hne n m. destruct texto as [|a texto]; [done|].
  unfold _generar_estadisticas. fold n m.
  rewrite (decide_True (P := n * 8 > 0)); [done|].
  subst n. simpl length. lia.
Qed.

Lemma estadisticas_de_get texto cod r t0 t1 k :
  k ∉ ["altura"; "num_hojas"; "num_nodos_internos"; "longitud_promedio_codigo"] ->
  dict_get (estadisticas_de texto cod r t0 t1) k
  = dict_get (_generar_estadisticas texto cod (VFloat (t1 - t0))) k.
Proof. intros Hk. unfold estadisticas_de. by rewrite dict_get_update_otro. Qed.

(** C8 (statistics). For a non-empty text of [n] symbols [comprimir] returns
    an encoded output of [m > 0] digits and statistics with
    [bits_originales = 8 n], [tasa_compresion = (8 n - m) / (8 n) * 100],
    [factor_compresion = 8 n / m] and [bits_ahorrados = 8 n - m]. The
    function that computes them gives, for any encoded text of [m'] digits,
    the factor [8 n / m'] when [m' > 0] and zero when [m' = 0], and the
    difference [8 n - m'] as it is, negative when [m' > 8 n]; on the empty
    text, where [bits_originales] is zero, the rate is zero. The quotients
    and the product are those of Python on doubles: [div_enteros] is the
    correctly rounded quotient of two integers and [*] the rounded product. *)
Theorem C8_statistics (texto : str) (t0 t1 : float64) (self : CompresorHuffman) :
  texto ≠ [] ->
  let n := Z.of_nat (length texto) in
  (exists cod codigos raiz stats self',
      comprimir texto t0 t1 self = (Ok (cod, codigos, raiz, stats), self')
      /\ let m := Z.of_nat (length cod) in
         m > 0
         /\ dict_get stats "bits_originales" = Some (VInt (8 * n))
         /\ dict_get stats "bits_comprimidos" = Some (VInt m)
         /\ dict_get stats "tasa_compresion"
            = Some (VFloat (div_enteros (8 * n - m) (8 * n) * float_de_Z 100))
         /\ dict_get stats "factor_compresion"
            = Some (VFloat (div_enteros (8 * n) m))
         /\ dict_get stats "bits_ahorrados" = Some (VInt (8 * n - m)))
  /\ (forall cod' tiempo,
        let m' := Z.of_nat (length cod') in
        let stats' := _generar_estadisticas texto cod' tiempo in
        dict_get stats' "factor_compresion"
        = Some (if decide (m' > 0) then VFloat (div_enteros (8 * n) m')
                else VInt 0)
        /\ dict_get stats' "bits_ahorrados" = Some (VInt (8 * n - m'))
        /\ (m' > 8 * n -> exists z, dict_get stats' "bits_ahorrados" = Some (VInt z)
                                    /\ z < 0))
  /\ (forall cod' tiempo,
        dict_get (_generar_estadisticas [] cod' tiempo) "bits_originales"
        = Some (VInt 0)
        /\ dict_get (_generar_estadisticas [] cod' tiempo) "tasa_compresion"
           = Some (VInt 0)).
Proof.
  intros Hne n. split_and!; [| |done].
  - destruct (comprimir_ok texto Hne) as (r & cod & Hr & Hhojas & Hcod & Hcomp).
    eexists cod, _, (Some r), _, _. split; [by rewrite Hcomp|].
    intros m.
    assert (m > 0) as Hm.
    { pose proof (_codificar_texto_length texto _ cod Hcod) as Hlen.
      destruct texto; [done|]. simpl in Hlen. subst m.
      specialize (Hlen (fun c w => codigos_arbol_no_vacio r c w Hr)). lia. }
    rewrite !estadisticas_de_get by (apply (bool_decide_unpack _); by vm_compute).
    rewrite (_generar_estadisticas_no_vacio texto cod _ Hne).
    fold n m. rewrite (Z.mul_comm n 8). cbn [dict_get].
    rewrite (decide_True (P := m > 0)) by done. split_and!; done.
  - intros cod' tiempo m' stats'. subst stats'.
    rewrite (_generar_estadisticas_no_vacio texto cod' _ Hne).
    fold n m'. rewrite (Z.mul_comm n 8). split_and!; [done..|].
    intros Hneg. exists (8 * n - m'). split; [done | lia].
Qed.

Lemma C8_statistics_witness :
  texto_de "AABBC" ≠ []
  /\ exists cod codigos raiz stats self',
      comprimir (texto_de "AABBC") 0 1 compresor_nuevo
      = (Ok (cod, codigos, raiz, stats), self')
      /\ let m := Z.of_nat (length cod) in
         m > 0
         /\ dict_get stats "bits_originales" = Some (VInt (8 * 5))
         /\ dict_get stats "bits_comprimidos" = Some (VInt m)
         /\ dict_get stats "tasa_compresion"
            = Some (VFloat (div_enteros (8 * 5 - m) (8 * 5) * float_de_Z 100))
         /\ dict_get stats "factor_compresion"
            = Some (VFloat (div_enteros (8 * 5) m))
         /\ dict_get stats "bits_ahorrados" = Some (VInt (8 * 5 - m)).
Proof.
  assert (texto_de "AABBC" ≠ []) as Hne by done.
  split; [done|].
  exact (proj1 (C8_statistics (texto_de "AABBC") 0 1 compresor_nuevo Hne)).
Defined.

(** * Further properties of the code *)

(** ** The order of the heap *)

Lemma es_hijo_padre pos : (0 < pos)%nat -> es_hijo pos ((pos - 1) / 2).
Proof.
  intros Hpos. unfold es_hijo.
  pose proof (Nat.Div0.div_mod (pos - 1) 2) as Hdiv.
  pose proof (Nat.mod_upper_bound (pos - 1) 2). lia.
Qed.

Lemma es_hijo_unico c p p' : es_hijo c p -> es_hijo c p' -> p = p'.
Proof. unfold es_hijo. lia. Qed.

Lemma es_hijo_lt c p : es_hijo c p -> (p < c)%nat.
Proof. unfold es_hijo. lia. Qed.

Lemma lookup_insert_casos {A} (l : list A) i j x y :
  <[i:=x]> l !! j = Some y -> (i = j /\ y = x) \/ (i ≠ j /\ l !! j = Some y).
Proof.
  intros Hl. destruct (decide (i = j)) as [->|Hne].
  - left. split; [done|].
    pose proof (lookup_lt_Some _ _ _ Hl) as Hlt. rewrite length_insert in Hlt.
    rewrite list_lookup_insert_eq in Hl by done. by injection Hl.
  - right. by rewrite list_lookup_insert_ne in Hl.
Qed.

Section HeapqOrden.
Import heapq.
Implicit Types (heap : list NodoHuffman) (x y newitem : NodoHuffman).

Lemma hueco_sube_cierra heap pos newitem :
  hueco_sube heap pos newitem ->
  (forall p x, es_hijo pos p -> heap !! p = Some x ->
               frecuencia x <= frecuencia newitem) ->
  es_heap (<[pos:=newitem]> heap).
Proof.
  intros (K1 & K2 & K3) Hpadre p c x y Hh Hx Hy.
  apply lookup_insert_casos in Hx as [[<- ->]|[Hnp Hx]];
    apply lookup_insert_casos in Hy as [[<- ->]|[Hnc Hy]].
  - apply es_hijo_lt in Hh. lia.
  - by eapply K3.
  - by eapply Hpadre.
  - by eapply K1.
Qed.

Lemma siftdown_loop_heap fuel : forall heap pos newitem heap' pos',
  hueco_sube heap pos newitem ->
  siftdown_loop fuel heap 0 pos newitem = Ok (heap', pos') ->
  es_heap (<[pos':=newitem]> heap').
Proof.
  induction fuel as [|fuel IH]; intros heap pos newitem heap' pos' HK;
    cbn [siftdown_loop].
  - destruct (decide (0 < pos)%nat) as [|Hpos]; [done|]. intros [= <- <-].
    apply hueco_sube_cierra; [done|]. intros p x Hp%es_hijo_lt. lia.
  - destruct (decide (0 < pos)%nat) as [Hpos|Hpos].
    2:{ intros [= <- <-]. apply hueco_sube_cierra; [done|].
        intros p x Hp%es_hijo_lt. lia. }
    pose proof (es_hijo_padre pos Hpos) as Hpar.
    set (parentpos := ((pos - 1) / 2)%nat) in *.
    unfold leer. destruct (heap !! parentpos) as [parent|] eqn:Hparent; [|done].
    rewrite rbind_Ok. unfold nodo_lt.
    destruct (Z.ltb_spec (frecuencia newitem) (frecuencia parent)) as [Hlt|Hge].
    2:{ intros [= <- <-]. apply hueco_sube_cierra; [done|].
        intros p x Hp Hx. rewrite (es_hijo_unico _ _ _ Hp Hpar) in Hx.
        by simplify_eq. }
    unfold asignar. destruct (decide (pos < length heap)%nat) as [Hin|]; [|done].
    rewrite rbind_Ok. apply IH.
    destruct HK as (K1 & K2 & K3).
    assert (parentpos < pos)%nat as Hpp by (by apply es_hijo_lt).
    split_and!.
    + intros p c x y Hh Hc Hx Hy.
      apply lookup_insert_casos in Hx as [[<- ->]|[Hnp Hx]];
        apply lookup_insert_casos in Hy as [[<- ->]|[Hnc Hy]].
      * apply es_hijo_lt in Hh. lia.
      * by eapply (K2 parentpos c).
      * rewrite (es_hijo_unico _ _ _ Hh Hpar) in Hx. by simplify_eq.
      * by eapply K1.
    + intros g c x y Hg Hc Hx Hy.
      assert (g < parentpos)%nat by (by apply es_hijo_lt).
      rewrite list_lookup_insert_ne in Hx by lia.
      assert (frecuencia x <= frecuencia parent) as Hxp.
      { eapply (K1 g parentpos); [done|lia|done..]. }
      apply lookup_insert_casos in Hy as [[<- ->]|[Hnc Hy]]; [done|].
      etrans; [exact Hxp|]. by eapply (K1 parentpos c).
    + intros c y Hc Hy.
      apply lookup_insert_casos in Hy as [[<- ->]|[Hnc Hy]]; [lia|].
      assert (frecuencia parent <= frecuencia y) by (by eapply (K1 parentpos c)).
      lia.
Qed.

(** A list whose order fails at most above [pos], where [pos] has no child
    in the list, is a heap after [_siftdown]. *)
Lemma _siftdown_heap heap pos heap' :
  (forall p c x y, es_hijo c p -> c ≠ pos ->
                   heap !! p = Some x -> heap !! c = Some y ->
                   frecuencia x <= frecuencia y) ->
  (length heap <= 2 * pos + 1)%nat ->
  _siftdown heap 0 pos = Ok heap' -> es_heap heap'.
Proof.
  intros K1 Hhoja. unfold _siftdown, leer.
  destruct (heap !! pos) as [newitem|] eqn:Hnew; [|done]. rewrite rbind_Ok.
  destruct (siftdown_loop pos heap 0 pos newitem) as [[heap1 pos1]|] eqn:Hloop;
    [|done].
  rewrite rbind_Ok. unfold asignar.
  destruct (decide (pos1 < length heap1)%nat); [|done]. intros [= <-].
  eapply siftdown_loop_heap; [|done].
  split_and!; [done|..].
  - intros g c x y _ Hc _ Hy. apply lookup_lt_Some in Hy. unfold es_hijo in Hc. lia.
  - intros c y Hc Hy. apply lookup_lt_Some in Hy. unfold es_hijo in Hc. lia.
Qed.

Lemma heappush_heap heap item heap' :
  es_heap heap -> heappush heap item = Ok heap' -> es_heap heap'.
Proof.
  intros Hheap. unfold heappush. apply _siftdown_heap.
  - rewrite length_app. simpl. replace (length heap + 1 - 1)%nat with (length heap) by lia.
    intros p c x y Hh Hc Hx Hy.
    assert (c < length heap)%nat as Hclt.
    { apply lookup_lt_Some in Hy. rewrite length_app in Hy. simpl in Hy. lia. }
    apply es_hijo_lt in Hh as Hpc.
    rewrite lookup_app_l in Hx by lia. rewrite lookup_app_l in Hy by lia.
    by eapply Hheap.
  - rewrite length_app. simpl. lia.
Qed.

Lemma siftup_loop_heap fuel : forall heap pos heap' pos',
  hueco_baja heap pos ->
  siftup_loop fuel heap (length heap) pos (2 * pos + 1) = Ok (heap', pos') ->
  (forall p c x y, es_hijo c p -> p ≠ pos' ->
                   heap' !! p = Some x -> heap' !! c = Some y ->
                   frecuencia x <= frecuencia y)
  /\ (length heap' <= 2 * pos' + 1)%nat.
Proof.
  induction fuel as [|fuel IH]; intros heap pos heap' pos' [L1 L2];
    cbn [siftup_loop].
  - destruct (decide (2 * pos + 1 < length heap)%nat) as [|Hhoja]; [done|].
    intros [= <- <-]. split; [done | lia].
  - destruct (decide (2 * pos + 1 < length heap)%nat) as [Hizq|Hhoja].
    2:{ intros [= <- <-]. split; [done | lia]. }
    assert (exists c yc,
              (if decide (2 * pos + 1 + 1 < length heap)%nat
               then l ← leer heap (2 * pos + 1)%nat;
                    r ← leer heap (2 * pos + 1 + 1)%nat;
                    Ok (if negb (nodo_lt l r) then (2 * pos + 1 + 1)%nat
                        else (2 * pos + 1)%nat)
               else Ok (2 * pos + 1)%nat) = Ok c
              /\ es_hijo c pos /\ heap !! c = Some yc
              /\ forall d y, es_hijo d pos -> heap !! d = Some y ->
                             frecuencia yc <= frecuencia y)
      as (c & yc & -> & Hc & Hyc & Hmenor).
    { destruct (leer_lt heap (2 * pos + 1) Hizq) as (l & Hl & Hleer).
      destruct (decide (2 * pos + 1 + 1 < length heap)%nat) as [Hder|Hder].
      - destruct (leer_lt heap (2 * pos + 1 + 1) Hder) as (r & Hr & Hleer').
        rewrite Hleer, Hleer', !rbind_Ok. unfold nodo_lt.
        destruct (Z.ltb_spec (frecuencia l) (frecuencia r)) as [Hlt|Hge]; simpl.
        + exists (2 * pos + 1)%nat, l. split_and!; [done|by left|done|].
          intros d y Hd0 Hd;
            assert (d = (2 * pos + 1)%nat \/ d = (2 * pos + 1 + 1)%nat) as [->| ->]
              by (unfold es_hijo in Hd0; lia); simplify_eq; lia.
        + exists (2 * pos + 1 + 1)%nat, r. split_and!; [done|right; lia|done|].
          intros d y Hd0 Hd;
            assert (d = (2 * pos + 1)%nat \/ d = (2 * pos + 1 + 1)%nat) as [->| ->]
              by (unfold es_hijo in Hd0; lia); simplify_eq; lia.
      - exists (2 * pos + 1)%nat, l. split_and!; [done|by left|done|].
        intros d y Hd0 Hd;
            assert (d = (2 * pos + 1)%nat \/ d = (2 * pos + 1 + 1)%nat) as [->| ->]
              by (unfold es_hijo in Hd0; lia); [by simplify_eq|].
        apply lookup_lt_Some in Hd. lia. }
    rewrite rbind_Ok, (leer_Some _ _ _ Hyc), rbind_Ok.
    assert (pos < c)%nat as Hpc by (by apply es_hijo_lt).
    assert (c < length heap)%nat as Hclt by (by eapply lookup_lt_Some).
    rewrite asignar_lt, rbind_Ok by lia.
    rewrite <- (length_insert heap pos yc). apply IH. split.
    + intros p d x y Hh Hp Hx Hy.
      apply lookup_insert_casos in Hx as [[<- ->]|[Hnp Hx]];
        apply lookup_insert_casos in Hy as [[<- ->]|[Hnd Hy]].
      * done.
      * by eapply Hmenor.
      * by eapply (L2 p c).
      * by eapply L1.
    + intros g d x y Hg Hd Hx Hy.
      rewrite (es_hijo_unico _ _ _ Hg Hc) in Hx.
      rewrite list_lookup_insert_eq in Hx by lia. injection Hx as <-.
      apply es_hijo_lt in Hd as Hcd.
      rewrite list_lookup_insert_ne in Hy by lia.
      eapply (L1 c d); [done|lia|done..].
Qed.

Lemma _siftup_heap heap heap' :
  hueco_baja heap 0 -> _siftup heap 0 = Ok heap' -> es_heap heap'.
Proof.
  intros HL. unfold _siftup, leer.
  destruct (heap !! 0%nat) as [newitem|] eqn:Hnew; [|done]. rewrite rbind_Ok.
  destruct (siftup_loop (length heap) heap (length heap) 0 (2 * 0 + 1))
    as [[heap1 pos1]|] eqn:Hloop; [|done].
  rewrite rbind_Ok.
  destruct (siftup_loop_heap _ _ _ _ _ HL Hloop) as [L1 Hhoja].
  unfold asignar. destruct (decide (pos1 < length heap1)%nat) as [Hp1|]; [|done].
  rewrite rbind_Ok. apply _siftdown_heap; [|by rewrite length_insert].
  intros p c x y Hh Hc Hx Hy.
  assert (p ≠ pos1) as Hp.
  { intros ->. apply lookup_lt_Some in Hy. rewrite length_insert in Hy.
    unfold es_hijo in Hh. lia. }
  rewrite list_lookup_insert_ne in Hx by done.
  rewrite list_lookup_insert_ne in Hy by done.
  by eapply L1.
Qed.

(** The first node of a heap is a least one. *)
Lemma heap_minimo heap x :
  es_heap heap -> heap !! 0%nat = Some x ->
  forall i y, heap !! i = Some y -> frecuencia x <= frecuencia y.
Proof.
  intros Hheap Hx i. induction i as [i IH] using lt_wf_ind. intros y Hy.
  destruct (decide (i = 0%nat)) as [->|Hi]; [by simplify_eq|].
  assert (0 < i)%nat as Hpos by lia.
  pose proof (es_hijo_padre i Hpos) as Hpar.
  apply es_hijo_lt in Hpar as Hlt.
  destruct (lookup_lt_is_Some_2 heap ((i - 1) / 2)) as [z Hz].
  { apply lookup_lt_Some in Hy. lia. }
  etrans; [by apply (IH _ Hlt z)|]. by eapply Hheap.
Qed.

Lemma heappop_heap heap x heap' :
  es_heap heap -> heappop heap = Ok (x, heap') ->
  es_heap heap' /\ forall y, y ∈ heap -> frecuencia x <= frecuencia y.
Proof.
  intros Hheap. destruct (decide (heap = [])) as [->|Hne]; [done|].
  destruct (exists_last Hne) as (h & ult & ->).
  unfold heappop. rewrite pop_ok, rbind_Ok.
  destruct h as [|primero h].
  - intros [= <- <-]. split; [by intros p c x y _ ?|].
    by intros y ->%list_elem_of_singleton.
  - rewrite (leer_Some _ 0 primero), rbind_Ok by done.
    rewrite asignar_lt, rbind_Ok by (simpl; lia). simpl.
    destruct (_siftup (ult :: h) 0) as [heap1|] eqn:Hup; [|done].
    rewrite rbind_Ok. intros [= <- <-]. split.
    + eapply _siftup_heap; [|done]. split.
      * intros p c x y Hh Hp Hx Hy. apply es_hijo_lt in Hh as Hpc.
        destruct p as [|p]; [done|]. destruct c as [|c]; [lia|].
        simpl in Hx, Hy. apply (Hheap (S p) (S c)); [done|..]; simpl.
        -- apply lookup_app_l_Some. done.
        -- apply lookup_app_l_Some. done.
      * intros g c x y Hg%es_hijo_lt. lia.
    + intros y [i Hy]%list_elem_of_lookup.
      by eapply (heap_minimo _ primero Hheap).
Qed.
End HeapqOrden.

(** ** The table of frequencies *)

Lemma contar_get (d : dict ascii Z) a c :
  dict_get (contar d a) c
  = if decide (a = c) then Some (default 0 (dict_get d a) + 1) else dict_get d c.
Proof. unfold contar. apply dict_get_set. Qed.

Lemma Counter_fold_get texto : forall (d : dict ascii Z) c,
  dict_get (fold_left contar texto d) c
  = match dict_get d c with
    | Some n => Some (n + apariciones c texto)
    | None => if decide (c ∈ texto) then Some (apariciones c texto) else None
    end.
Proof.
  induction texto as [|a texto IH]; intros d c; cbn [fold_left apariciones].
  - destruct (dict_get d c); [by rewrite Z.add_0_r|].
    destruct (decide (c ∈ [])) as [Hin|]; [|done]. by apply elem_of_nil in Hin.
  - rewrite IH, contar_get. destruct (decide (a = c)) as [->|Hne]; cbn beta iota.
    + destruct (dict_get d c); cbn [default from_option id]; [f_equal; lia|].
      destruct (decide (c ∈ c :: texto)) as [|Hnin]; [f_equal; lia|].
      destruct Hnin. left.
    + destruct (dict_get d c); [f_equal; lia|].
      destruct (decide (c ∈ texto)) as [Hin|Hnin];
        destruct (decide (c ∈ a :: texto)) as [Hin'|Hnin']; try done.
      * destruct Hnin'. by right.
      * apply elem_of_cons in Hin' as [->|]; done.
Qed.

Lemma dict_set_suma (d : dict ascii Z) a v :
  suma_frecuencias (dict_set d a v)
  = suma_frecuencias d - default 0 (dict_get d a) + v.
Proof.
  unfold suma_frecuencias, dict_values.
  induction d as [|[k w] d IH]; csimpl; [lia|].
  destruct (decide (k = a)) as [->|Hne]; csimpl; [lia|]. rewrite IH. lia.
Qed.

Lemma contar_suma (d : dict ascii Z) a :
  suma_frecuencias (contar d a) = suma_frecuencias d + 1.
Proof. unfold contar. rewrite dict_set_suma. lia. Qed.

Lemma Counter_fold_suma texto : forall d : dict ascii Z,
  suma_frecuencias (fold_left contar texto d)
  = suma_frecuencias d + Z.of_nat (length texto).
Proof.
  induction texto as [|a texto IH]; intros d; simpl; [lia|].
  rewrite IH, contar_suma. lia.
Qed.

Lemma contar_keys (d : dict ascii Z) a :
  dict_keys (contar d a)
  = if decide (a ∈ dict_keys d) then dict_keys d else dict_keys d ++ [a].
Proof. unfold contar. apply dict_set_keys. Qed.

Lemma Counter_fold_orden texto : forall d : dict ascii Z,
  dict_keys (fold_left contar texto d)
  = dict_keys d ++ filter (fun x => x ∉ dict_keys d) (primeras_apariciones texto).
Proof.
  induction texto as [|a texto IH]; intros d; simpl.
  - by rewrite filter_nil, app_nil_r.
  - rewrite IH, contar_keys. destruct (decide (a ∈ dict_keys d)) as [Hin|Hnin].
    + rewrite filter_cons_False by (by intros ?). f_equal.
      rewrite list_filter_filter. apply list_filter_iff.
      intros x. split; [|by intros [? _]]. intros Hx. split; [done|].
      by intros ->.
    + rewrite filter_cons_True by done. rewrite <- (assoc (++)). simpl.
      do 2 f_equal. rewrite list_filter_filter. apply list_filter_iff.
      intros x. rewrite elem_of_app, list_elem_of_singleton. tauto.
Qed.

(** ** The weights of the tree *)

#[local] Instance suma_pesos_perm : Proper ((≡ₚ) ==> (=)) suma_pesos.
Proof.
  intros h1 h2 Hperm. unfold suma_pesos.
  induction Hperm; simpl; [done|lia|lia|congruence].
Qed.

Lemma suma_pesos_hojas_de items : suma_pesos (hojas_de items) = suma_frecuencias items.
Proof.
  unfold suma_pesos, suma_frecuencias, hojas_de, dict_values.
  induction items as [|[c f] items IH]; csimpl; [done|]. by rewrite IH.
Qed.

Lemma pesado_peso n : pesado n -> frecuencia n = peso n.
Proof.
  induction 1 as [c f|l r Hl IHl Hr IHr Hle]; simpl; [done|]. by rewrite IHl, IHr.
Qed.

Lemma pesado_completo n : pesado n -> completo n.
Proof. induction 1; by constructor. Qed.

Section Pesos.
Import heapq.

Lemma insertar_hojas_heap items : forall heap heap',
  es_heap heap -> insertar_hojas items heap = Ok heap' -> es_heap heap'.
Proof.
  induction items as [|[c f] items IH]; intros heap heap' Hheap; simpl.
  - by intros [= <-].
  - destruct (heappush heap (nodo_hoja c f)) as [heap1|] eqn:Hpush; [|done].
    rewrite rbind_Ok. apply IH. by eapply heappush_heap.
Qed.

Lemma es_heap_nil : es_heap [].
Proof. by intros p c x y _ ?. Qed.

(** One pass of the loop of the construction on a heap of two nodes or more. *)
Lemma combinar_paso fuel heap :
  es_heap heap -> (2 <= length heap)%nat ->
  exists izq der resto heap',
    heap ≡ₚ izq :: der :: resto
    /\ frecuencia izq <= frecuencia der
    /\ (forall y, y ∈ resto -> frecuencia der <= frecuencia y)
    /\ es_heap heap'
    /\ heap' ≡ₚ nodo_padre (frecuencia izq + frecuencia der) izq der :: resto
    /\ combinar (S fuel) heap = combinar fuel heap'.
Proof.
  intros Hheap Hlen. cbn [combinar]. rewrite decide_True by lia.
  destruct (heappop_ok heap) as (izq & h1 & Hpop1 & Hp1).
  { intros ->. simpl in Hlen. lia. }
  destruct (heappop_heap heap izq h1 Hheap Hpop1) as [Hheap1 Hmin1].
  destruct (heappop_ok h1) as (der & resto & Hpop2 & Hp2).
  { intros ->. rewrite Hp1 in Hlen. simpl in Hlen. lia. }
  destruct (heappop_heap h1 der resto Hheap1 Hpop2) as [Hheap2 Hmin2].
  destruct (heappush_ok resto (nodo_padre (frecuencia izq + frecuencia der) izq der))
    as (heap' & Hpush & Hp3).
  exists izq, der, resto, heap'. split_and!.
  - by rewrite Hp1, Hp2.
  - apply Hmin1. rewrite Hp1, Hp2. right. left.
  - intros y Hy. apply Hmin2. rewrite Hp2. by right.
  - by eapply heappush_heap.
  - done.
  - by rewrite Hpop1, rbind_Ok, Hpop2, rbind_Ok, Hpush, rbind_Ok.
Qed.

Lemma combinar_pesado fuel : forall heap r,
  es_heap heap -> Forall pesado heap ->
  combinar fuel heap = Ok [r] ->
  pesado r /\ frecuencia r = suma_pesos heap.
Proof.
  induction fuel as [|fuel IH]; intros heap r Hheap Hall.
  - cbn [combinar]. destruct (decide (1 < length heap)%nat); [discriminate|].
    intros [= ->]. apply Forall_cons in Hall as [Hr _]. split; [done|]. simpl. lia.
  - destruct (decide (2 <= length heap)%nat) as [Hlen|Hlen].
    + destruct (combinar_paso fuel heap Hheap Hlen)
        as (izq & der & resto & heap' & Hp & Hle & _ & Hheap' & Hp' & ->).
      rewrite Hp in Hall. apply Forall_cons in Hall as [Hizq Hall].
      apply Forall_cons in Hall as [Hder Hall].
      intros Hcomb. destruct (IH heap' r Hheap') as [Hr Hsum]; [|done|].
      * rewrite Hp'. apply Forall_cons. split; [by constructor | done].
      * split; [done|]. rewrite Hsum, Hp', Hp. simpl. lia.
    + cbn [combinar]. rewrite decide_False by lia.
      intros [= ->]. apply Forall_cons in Hall as [Hr _]. split; [done|]. simpl. lia.
Qed.
End Pesos.

Lemma Counter_orden texto : dict_keys (Counter texto) = primeras_apariciones texto.
Proof.
  unfold Counter. rewrite Counter_fold_orden. simpl.
  rewrite (list_filter_iff _ (fun _ => True));
    [|intros x; split; [done|intros _; apply not_elem_of_nil]].
  induction (primeras_apariciones texto) as [|a l IH]; [done|].
  by rewrite filter_cons_True, IH.
Qed.

(** X1. [calcular_frecuencias] lists the characters of the text in the order
    of their first occurrences, gives each the number of its occurrences,
    gives no entry to a character that does not occur, and its values add
    up to the length of the text. *)
Theorem calcular_frecuencias_cuenta (texto : str) :
  dict_keys (calcular_frecuencias texto) = primeras_apariciones texto
  /\ (forall c, dict_get (calcular_frecuencias texto) c
                = if decide (c ∈ texto) then Some (apariciones c texto) else None)
  /\ suma_frecuencias (calcular_frecuencias texto) = Z.of_nat (length texto).
Proof.
  assert (calcular_frecuencias texto = fold_left contar texto []) as ->
    by (by destruct texto).
  split_and!.
  - apply Counter_orden.
  - intros c. by rewrite Counter_fold_get.
  - by rewrite Counter_fold_suma.
Qed.

(** X2. The loop that pushes one leaf for each entry of the table never
    raises and leaves a heap (no node lighter than its parent) that holds
    exactly those leaves. *)
Theorem insertar_hojas_es_heap (frecuencias : dict ascii Z) :
  exists heap,
    insertar_hojas frecuencias [] = Ok heap
    /\ es_heap heap /\ heap ≡ₚ hojas_de frecuencias.
Proof.
  destruct (insertar_hojas_ok frecuencias []) as (heap & Hins & Hperm).
  exists heap. split_and!; [done| |by rewrite Hperm, app_nil_r].
  by eapply insertar_hojas_heap; [apply es_heap_nil|].
Qed.

(** X3. A pass of the loop [while len(heap) > 1] on a heap takes out the
    lightest node as the left child and the lightest of the others as the
    right child, both no heavier than any node that stays, and puts their
    parent back leaving a heap again. *)
Theorem combinar_fusiona_los_dos_menores (fuel : nat) (heap : list NodoHuffman) :
  es_heap heap -> (2 <= length heap)%nat ->
  exists izq der resto heap',
    heap ≡ₚ izq :: der :: resto
    /\ frecuencia izq <= frecuencia der
    /\ (forall y, y ∈ resto -> frecuencia der <= frecuencia y)
    /\ es_heap heap'
    /\ heap' ≡ₚ nodo_padre (frecuencia izq + frecuencia der) izq der :: resto
    /\ combinar (S fuel) heap = combinar fuel heap'.
Proof. apply combinar_paso. Qed.

Lemma combinar_fusiona_los_dos_menores_witness :
  exists heap,
    insertar_hojas [("A"%char, 3); ("B"%char, 2); ("C"%char, 1)] [] = Ok heap
    /\ exists izq der resto heap',
        heap ≡ₚ izq :: der :: resto
        /\ frecuencia izq <= frecuencia der
        /\ (forall y, y ∈ resto -> frecuencia der <= frecuencia y)
        /\ es_heap heap'
        /\ heap' ≡ₚ nodo_padre (frecuencia izq + frecuencia der) izq der :: resto
        /\ combinar 3 heap = combinar 2 heap'.
Proof.
  exists [nodo_hoja "C" 1; nodo_hoja "A" 3; nodo_hoja "B" 2].
  split; [reflexivity|].
  apply (combinar_fusiona_los_dos_menores 2).
  - apply (insertar_hojas_heap [("A"%char, 3); ("B"%char, 2); ("C"%char, 1)] []);
      [apply es_heap_nil | reflexivity].
  - simpl. lia.
Defined.

(** The construction on a table with an entry: what [construir_ok] says,
    and the weights. *)
Lemma construir_pesado (frecuencias : dict ascii Z) :
  frecuencias ≠ [] ->
  exists r,
    (forall self,
       construir_desde_frecuencias frecuencias self
       = (Ok tt, {| raiz := Some r; codigos := codigos self |}))
    /\ completo r /\ hojas r ≡ₚ dict_keys frecuencias
    /\ pesado r /\ frecuencia r = suma_frecuencias frecuencias.
Proof.
  intros Hne. destruct frecuencias as [|[c f] resto]; [done|].
  unfold construir_desde_frecuencias.
  destruct (decide (length ((c, f) :: resto) = 1%nat)) as [Huno|Hvarios].
  - destruct resto; [|done].
    exists (nodo_hoja c f). split_and!; [|constructor|done|constructor|].
    + intros self. unfold mbind, M_bind, mbindM, mlift, dict_item. simpl.
      by rewrite decide_True.
    + unfold suma_frecuencias. simpl. lia.
  - destruct (insertar_hojas_ok ((c, f) :: resto) []) as (heap & Hins & Hperm).
    rewrite app_nil_r in Hperm.
    destruct (combinar_ok (length heap) heap) as (r & Hcomb & Hcomp & Hhojas).
    { lia. } { intros ->. by apply Permutation_nil_cons in Hperm. }
    destruct (combinar_pesado (length heap) heap r) as [Hpes Hsum]; [| |done|].
    { by eapply insertar_hojas_heap; [apply es_heap_nil|]. }
    { rewrite Hperm. apply Forall_fmap, Forall_true. intros [c' f']. constructor. }
    exists r. split_and!.
    + intros self. unfold mbind, M_bind, mbindM, mlift. by rewrite Hins, Hcomb.
    + apply Hcomp. rewrite Hperm. apply hojas_de_completo.
    + by rewrite Hhojas, Hperm, hojas_de_hojas.
    + done.
    + by rewrite Hsum, Hperm, suma_pesos_hojas_de.
Qed.

(** X4. On a table with an entry [construir_desde_frecuencias] builds a
    tree in which every parent weighs the sum of its two children and its
    left child is no heavier than its right child; the root weighs the sum
    of the frequencies of the table. *)
Theorem construir_pesos (frecuencias : dict ascii Z) (self : ArbolHuffman) :
  frecuencias ≠ [] ->
  exists r,
    construir_desde_frecuencias frecuencias self
    = (Ok tt, {| raiz := Some r; codigos := codigos self |})
    /\ pesado r
    /\ frecuencia r = peso r
    /\ frecuencia r = suma_frecuencias frecuencias.
Proof.
  intros Hne.
  destruct (construir_pesado frecuencias Hne) as (r & Hcons & _ & _ & Hpes & Hsum).
  exists r. split_and!; [done..| |done]. by apply pesado_peso.
Qed.

Lemma construir_pesos_witness :
  exists r,
    construir_desde_frecuencias [("A"%char, 3); ("B"%char, 2); ("C"%char, 1)]
                                arbol_vacio
    = (Ok tt, {| raiz := Some r; codigos := [] |})
    /\ pesado r
    /\ frecuencia r = peso r
    /\ frecuencia r
       = suma_frecuencias [("A"%char, 3); ("B"%char, 2); ("C"%char, 1)].
Proof.
  apply (construir_pesos [("A"%char, 3); ("B"%char, 2); ("C"%char, 1)] arbol_vacio).
  done.
Defined.

(** X5. The root of the tree [comprimir] returns for a non-empty text
    weighs the length of the text, and the weights of the tree add up as in
    X4. *)
Theorem comprimir_peso_raiz (texto : str) (t0 t1 : float64) (self : CompresorHuffman) :
  texto ≠ [] ->
  exists cod codigos r stats self',
    comprimir texto t0 t1 self = (Ok (cod, codigos, Some r, stats), self')
    /\ pesado r
    /\ frecuencia r = Z.of_nat (length texto).
Proof.
  intros Hne.
  destruct (construir_pesado (Counter texto)) as (r & Hcons & Hr & Hhojas & Hpes & Hsum).
  { by apply Counter_no_vacio. }
  destruct (comprimir_con_arbol texto r Hne Hcons Hr Hhojas) as (cod & _ & Hcomp).
  eexists cod, _, r, _, _. split_and!; [by rewrite Hcomp|done|].
  rewrite Hsum. unfold Counter. by rewrite Counter_fold_suma.
Qed.

Lemma comprimir_peso_raiz_witness :
  texto_de "AABBC" ≠ []
  /\ exists cod codigos r stats self',
      comprimir (texto_de "AABBC") 0 1 compresor_nuevo
      = (Ok (cod, codigos, Some r, stats), self')
      /\ pesado r
      /\ frecuencia r = Z.of_nat (length (texto_de "AABBC")).
Proof.
  split; [done|].
  apply (comprimir_peso_raiz (texto_de "AABBC") 0 1 compresor_nuevo). done.
Defined.

(** ** The statistics of the tree *)

Lemma _contar_hojas_hojas n :
  completo n -> _contar_hojas n = Z.of_nat (length (hojas n)).
Proof.
  induction 1 as [c f|f l r Hl IHl Hr IHr]; simpl; [done|].
  rewrite IHl, IHr, length_app. lia.
Qed.

Lemma _contar_nodos_internos_hojas n :
  completo n -> _contar_nodos_internos n = _contar_hojas n - 1.
Proof.
  induction 1 as [c f|f l r Hl IHl Hr IHr]; simpl; [done|].
  rewrite IHl, IHr. lia.
Qed.

Lemma _calcular_altura_cota n :
  completo n -> 0 <= _calcular_altura n <= _contar_nodos_internos n.
Proof.
  induction 1 as [c f|f l r Hl IHl Hr IHr]; simpl; [lia|].
  pose proof (_contar_nodos_internos_hojas l Hl).
  pose proof (_contar_nodos_internos_hojas r Hr). lia.
Qed.

Lemma longitud_maxima_app (d e : dict ascii str) :
  longitud_maxima (d ++ e) = Z.max (longitud_maxima d) (longitud_maxima e).
Proof.
  unfold longitud_maxima. induction d as [|[c w] d IH]; simpl.
  - assert (0 <= fold_right (fun cw acc => Z.max (Z.of_nat (length cw.2)) acc) 0 e).
    { induction e as [|[c w] e IHe]; simpl; lia. }
    lia.
  - rewrite IH. lia.
Qed.

Lemma longitud_maxima_prefijo (d : dict ascii str) p :
  d ≠ [] ->
  longitud_maxima ((fun cw => (cw.1, p ++ cw.2)) <$> d)
  = Z.of_nat (length p) + longitud_maxima d.
Proof.
  unfold longitud_maxima. intros Hne.
  induction d as [|[c w] d IH]; [done|]. csimpl.
  destruct d as [|cw d].
  - simpl. rewrite length_app. lia.
  - rewrite IH by done. rewrite length_app. lia.
Qed.

Lemma codigos_de_no_nil n : completo n -> codigos_de n [] ≠ [].
Proof.
  induction 1 as [c f|f l r Hl IHl Hr IHr]; simpl; [done|].
  rewrite (codigos_de_prefijo l Hl).
  destruct (codigos_de l []); [done|]. done.
Qed.

Lemma _calcular_altura_codigos n :
  completo n -> _calcular_altura n = longitud_maxima (codigos_de n []).
Proof.
  induction 1 as [c f|f l r Hl IHl Hr IHr]; [done|].
  simpl. rewrite longitud_maxima_app.
  rewrite (codigos_de_prefijo l Hl), (codigos_de_prefijo r Hr).
  rewrite !longitud_maxima_prefijo by (by apply codigos_de_no_nil).
  rewrite IHl, IHr. simpl length. lia.
Qed.

Lemma longitud_maxima_cota (d : dict ascii str) c w :
  (c, w) ∈ d -> Z.of_nat (length w) <= longitud_maxima d.
Proof.
  unfold longitud_maxima. induction d as [|[c' w'] d IH]; simpl.
  - by intros ?%elem_of_nil.
  - intros [[= -> ->]|Hin]%elem_of_cons; [lia|]. specialize (IH Hin). lia.
Qed.

(** X6. For the tree built from a table of [k >= 1] entries,
    [obtener_estadisticas] counts [k] leaves and [k - 1] internal nodes, and
    a height between [0] and [k - 1]. *)
Theorem estadisticas_del_arbol (frecuencias : dict ascii Z) (self : ArbolHuffman) :
  frecuencias ≠ [] ->
  let k := Z.of_nat (length frecuencias) in
  exists self' h,
    construir_desde_frecuencias frecuencias self = (Ok tt, self')
    /\ dict_get (obtener_estadisticas self') "num_hojas" = Some (VInt k)
    /\ dict_get (obtener_estadisticas self') "num_nodos_internos" = Some (VInt (k - 1))
    /\ dict_get (obtener_estadisticas self') "altura" = Some (VInt h)
    /\ 0 <= h <= k - 1.
Proof.
  intros Hne k.
  destruct (construir_ok frecuencias Hne) as (r & Hcons & Hr & Hhojas).
  assert (_contar_hojas r = k) as Hk.
  { rewrite _contar_hojas_hojas by done. subst k. f_equal.
    rewrite Hhojas. unfold dict_keys. by rewrite length_fmap. }
  eexists _, (_calcular_altura r). split; [by rewrite Hcons|].
  unfold obtener_estadisticas. cbn [raiz dict_get].
  pose proof (_calcular_altura_cota r Hr) as Halt.
  rewrite _contar_nodos_internos_hojas in Halt |- * by done.
  rewrite Hk in *. split_and!; [done..|lia|lia].
Qed.

Lemma estadisticas_del_arbol_witness :
  exists self' h,
    construir_desde_frecuencias
      [("A"%char, 4); ("B"%char, 2); ("C"%char, 1); ("D"%char, 1)] arbol_vacio
    = (Ok tt, self')
    /\ dict_get (obtener_estadisticas self') "num_hojas" = Some (VInt 4)
    /\ dict_get (obtener_estadisticas self') "num_nodos_internos" = Some (VInt (4 - 1))
    /\ dict_get (obtener_estadisticas self') "altura" = Some (VInt h)
    /\ 0 <= h <= 4 - 1.
Proof.
  apply (estadisticas_del_arbol
           [("A"%char, 4); ("B"%char, 2); ("C"%char, 1); ("D"%char, 1)] arbol_vacio).
  done.
Defined.

(** X7. For a table of two entries or more with distinct characters, the
    height [obtener_estadisticas] reports for the tree built is the length
    of the longest code [generar_codigos] returns, whatever codes the object
    held before. *)
Theorem altura_es_el_codigo_mas_largo (frecuencias : dict ascii Z)
        (self : ArbolHuffman) :
  NoDup (dict_keys frecuencias) -> (2 <= length frecuencias)%nat ->
  exists self1 cods self2,
    construir_desde_frecuencias frecuencias self = (Ok tt, self1)
    /\ generar_codigos self1 = (Ok cods, self2)
    /\ dict_get (obtener_estadisticas self2) "altura"
       = Some (VInt (longitud_maxima cods)).
Proof.
  intros Hnd Hlen.
  destruct (construir_ok frecuencias) as (r & Hcons & Hr & Hhojas).
  { intros ->. simpl in Hlen. lia. }
  assert (NoDup (hojas r)) as Hndr by (by rewrite Hhojas).
  assert (caracter r = None) as Hc.
  { destruct Hr as [c f|]; [|done]. apply Permutation_length in Hhojas.
    unfold dict_keys in Hhojas. rewrite length_fmap in Hhojas. simpl in Hhojas. lia. }
  eexists _, _, _. split_and!.
  - by rewrite Hcons.
  - by apply generar_codigos_ok.
  - unfold obtener_estadisticas, codigos_arbol. cbn [raiz dict_get]. rewrite Hc.
    by rewrite _calcular_altura_codigos.
Qed.

Lemma altura_es_el_codigo_mas_largo_witness :
  exists self1 cods self2,
    construir_desde_frecuencias
      [("A"%char, 4); ("B"%char, 2); ("C"%char, 1); ("D"%char, 1)] arbol_vacio
    = (Ok tt, self1)
    /\ generar_codigos self1 = (Ok cods, self2)
    /\ dict_get (obtener_estadisticas self2) "altura"
       = Some (VInt (longitud_maxima cods)).
Proof.
  apply (altura_es_el_codigo_mas_largo
           [("A"%char, 4); ("B"%char, 2); ("C"%char, 1); ("D"%char, 1)] arbol_vacio).
  - apply (bool_decide_unpack _). by vm_compute.
  - simpl. lia.
Defined.

(** ** The length of the encoded text *)

Lemma _codificar_texto_bits texto (d : dict ascii str) cod :
  _codificar_texto texto d = Ok cod -> Z.of_nat (length cod) = bits_texto d texto.
Proof.
  revert cod. induction texto as [|a texto IH]; intros cod; simpl.
  - by intros [= <-].
  - unfold dict_item, longitud_codigo.
    destruct (dict_get d a) as [w|]; [|done]. rewrite rbind_Ok.
    destruct (_codificar_texto texto d) as [resto|]; [|done]. rewrite rbind_Ok.
    intros [= <-]. rewrite length_app, <- (IH resto eq_refl). lia.
Qed.

Lemma bits_por_frecuencias_set (f : dict ascii Z) (d : dict ascii str) a v :
  bits_por_frecuencias (dict_set f a v) d
  = bits_por_frecuencias f d
    - default 0 (dict_get f a) * longitud_codigo d a + v * longitud_codigo d a.
Proof.
  unfold bits_por_frecuencias.
  induction f as [|[k w] f IH]; csimpl; [lia|].
  destruct (decide (k = a)) as [->|Hne]; csimpl; [lia|]. rewrite IH. lia.
Qed.

Lemma bits_por_frecuencias_fold texto (d : dict ascii str) : forall f : dict ascii Z,
  bits_por_frecuencias (fold_left contar texto f) d
  = bits_por_frecuencias f d + bits_texto d texto.
Proof.
  induction texto as [|a texto IH]; intros f; simpl; [lia|].
  rewrite IH. unfold contar. rewrite bits_por_frecuencias_set. lia.
Qed.

(** X8. Whatever the code book, when [_codificar_texto] returns, the number
    of digits it returns is the sum, over the entries of
    [calcular_frecuencias] of the text, of the frequency times the length
    of the code. *)
Theorem longitud_del_texto_codificado (texto : str) (codigos : dict ascii str)
        (cod : str) :
  _codificar_texto texto codigos = Ok cod ->
  Z.of_nat (length cod)
  = bits_por_frecuencias (calcular_frecuencias texto) codigos.
Proof.
  intros Hcod.
  assert (calcular_frecuencias texto = fold_left contar texto []) as ->
    by (by destruct texto).
  rewrite bits_por_frecuencias_fold. by apply _codificar_texto_bits.
Qed.

Lemma longitud_del_texto_codificado_witness :
  Z.of_nat (length (texto_de "00111110"))
  = bits_por_frecuencias (calcular_frecuencias (texto_de "AABBC"))
      [("A"%char, texto_de "0"); ("C"%char, texto_de "10"); ("B"%char, texto_de "11")].
Proof.
  apply (longitud_del_texto_codificado (texto_de "AABBC")). reflexivity.
Defined.

Lemma _codificar_texto_cota texto (d : dict ascii str) cod M :
  _codificar_texto texto d = Ok cod ->
  (forall c w, (c, w) ∈ d -> Z.of_nat (length w) <= M) ->
  Z.of_nat (length cod) <= Z.of_nat (length texto) * M.
Proof.
  intros Hcod HM. revert cod Hcod.
  induction texto as [|a texto IH]; intros cod; simpl.
  - intros [= <-]. simpl. lia.
  - unfold dict_item. destruct (dict_get d a) as [w|] eqn:Hw; [|done].
    rewrite rbind_Ok.
    destruct (_codificar_texto texto d) as [resto|]; [|done]. rewrite rbind_Ok.
    intros [= <-]. rewrite length_app.
    specialize (IH resto eq_refl). apply dict_get_Some in Hw.
    specialize (HM a w Hw). lia.
Qed.

(** X9. For a non-empty text of [n] characters, [k] of them different,
    [comprimir] returns between [n] and [n (k - 1)] digits, and exactly [n]
    when [k = 1]. *)
Theorem comprimir_cotas (texto : str) (t0 t1 : float64) (self : CompresorHuffman) :
  texto ≠ [] ->
  let n := Z.of_nat (length texto) in
  let k := Z.of_nat (length (calcular_frecuencias texto)) in
  exists cod codigos raiz stats self',
    comprimir texto t0 t1 self = (Ok (cod, codigos, raiz, stats), self')
    /\ n <= Z.of_nat (length cod) <= n * Z.max 1 (k - 1).
Proof.
  intros Hne n k.
  destruct (comprimir_ok texto Hne) as (r & cod & Hr & Hhojas & Hcod & Hcomp).
  eexists cod, _, _, _, _. split; [by rewrite Hcomp|]. split.
  - pose proof (_codificar_texto_length texto _ cod Hcod
                  (fun c w => codigos_arbol_no_vacio r c w Hr)). lia.
  - apply (_codificar_texto_cota texto _ cod _ Hcod). intros c w Hin.
    assert (k = _contar_hojas r) as Hk.
    { rewrite _contar_hojas_hojas by done. subst k. f_equal.
      rewrite Hhojas. unfold dict_keys. rewrite length_fmap. by destruct texto. }
    unfold codigos_arbol in Hin. destruct (caracter r) eqn:Hc.
    + apply list_elem_of_singleton in Hin as [= -> ->]. simpl. lia.
    + pose proof (longitud_maxima_cota _ c w Hin) as Hmax.
      rewrite <- _calcular_altura_codigos in Hmax by done.
      pose proof (_calcular_altura_cota r Hr) as Halt.
      rewrite _contar_nodos_internos_hojas in Halt by done. lia.
Qed.

Lemma comprimir_cotas_witness :
  texto_de "AABBC" ≠ []
  /\ exists cod codigos raiz stats self',
      comprimir (texto_de "AABBC") 0 1 compresor_nuevo
      = (Ok (cod, codigos, raiz, stats), self')
      /\ 5 <= Z.of_nat (length cod) <= 5 * Z.max 1 (3 - 1).
Proof.
  split; [done|].
  apply (comprimir_cotas (texto_de "AABBC") 0 1 compresor_nuevo). done.
Defined.

(** ** Errors of the encoder and of the decoder *)

Lemma dict_get_None_keys {K V} `{EqDecision K} (d : dict K V) k :
  dict_get d k = None -> k ∉ dict_keys d.
Proof.
  intros Hnone Hin. destruct (dict_get_elem_of d k Hin) as (v & Hv & _).
  by rewrite Hnone in Hv.
Qed.

Lemma dict_get_Some_keys {K V} `{EqDecision K} (d : dict K V) k v :
  dict_get d k = Some v -> k ∈ dict_keys d.
Proof.
  intros Hd%dict_get_Some. unfold dict_keys. apply list_elem_of_fmap.
  by exists (k, v).
Qed.

(** X10. [_codificar_texto] returns exactly when every character of the
    text has an entry in the code book; otherwise it raises [KeyError], and
    it raises nothing else. *)
Theorem _codificar_texto_KeyError (texto : str) (codigos : dict ascii str) :
  match _codificar_texto texto codigos with
  | Ok cod => forall c, c ∈ texto -> c ∈ dict_keys codigos
  | Raise e => e = KeyError /\ exists c, c ∈ texto /\ c ∉ dict_keys codigos
  end.
Proof.
  induction texto as [|a texto IH]; simpl.
  - by intros c ?%elem_of_nil.
  - unfold dict_item. destruct (dict_get codigos a) as [w|] eqn:Hw.
    + rewrite rbind_Ok. destruct (_codificar_texto texto codigos) as [resto|e].
      * rewrite rbind_Ok. intros c [->|Hc]%elem_of_cons; [|by apply IH].
        by eapply dict_get_Some_keys.
      * rewrite rbind_Raise. destruct IH as [-> (c & Hc & Hnin)].
        split; [done|]. exists c. split; [by right | done].
    + rewrite rbind_Raise. split; [done|]. exists a. split; [left|].
      by apply dict_get_None_keys.
Qed.

Lemma decodificar_bits_solo_AttributeError raiz bits : forall n acc e,
  decodificar_bits raiz bits n acc = Raise e -> e = AttributeError.
Proof.
  induction bits as [|bit bits IH]; intros n acc e; cbn [decodificar_bits]; [done|].
  destruct (if decide (bit = "0"%char) then izquierdo n else derecho n)
    as [n'|]; [|by intros [= <-]].
  destruct (caracter n'); apply IH.
Qed.

Lemma descomprimir_completo r bits t0 t1 :
  completo r -> exists texto stats, descomprimir bits (Some r) t0 t1 = Ok (texto, stats).
Proof.
  intros Hr. destruct bits as [|bit bits]; [by eexists _, _|].
  destruct (caracter r) as [c|] eqn:Hc.
  - rewrite (descomprimir_hoja r c) by done. by eexists _, _.
  - destruct (decodificar_bits_total r Hr Hc (bit :: bits) r [] Hr Hc)
      as (n' & acc' & Hdec & _).
    unfold descomprimir. rewrite Hc, Hdec, !rbind_Ok. by eexists _, _.
Qed.

Lemma falta_hijo_caracter n : falta_hijo n -> caracter n = None.
Proof. by intros []. Qed.

Lemma decodificar_bits_falta_hijo raiz bits : forall n acc e,
  caracter raiz = None -> caracter n = None ->
  decodificar_bits raiz bits n acc = Raise e ->
  falta_hijo n \/ falta_hijo raiz.
Proof.
  induction bits as [|bit bits IH]; intros n acc e Hraiz Hn;
    cbn [decodificar_bits]; [done|].
  destruct n as [c f izq der]. simpl in Hn. subst c. simpl.
  destruct (decide (bit = "0"%char)) as [_|_].
  - destruct izq as [l|]; [|intros _; left; constructor].
    destruct (caracter l) eqn:Hl; intros Hdec.
    + destruct (IH _ _ _ Hraiz Hraiz Hdec); by right.
    + destruct (IH _ _ _ Hraiz Hl Hdec); [left|by right]. by constructor.
  - destruct der as [r|]; [|intros _; left; constructor].
    destruct (caracter r) eqn:Hr; intros Hdec.
    + destruct (IH _ _ _ Hraiz Hraiz Hdec); by right.
    + destruct (IH _ _ _ Hraiz Hr Hdec); [left|by right]. by constructor.
Qed.

Lemma falta_hijo_decodificar_bits n :
  falta_hijo n ->
  forall raiz acc, exists bit bits,
    decodificar_bits raiz (bit :: bits) n acc = Raise AttributeError.
Proof.
  induction 1 as [f der|f izq|f l der Hl IH|f izq r Hr IH]; intros raiz acc.
  - by exists "0"%char, [].
  - by exists "1"%char, [].
  - destruct (IH raiz acc) as (bit & bits & Hdec).
    exists "0"%char, (bit :: bits).
    cbn [decodificar_bits]. simpl. by rewrite (falta_hijo_caracter l Hl).
  - destruct (IH raiz acc) as (bit & bits & Hdec).
    exists "1"%char, (bit :: bits).
    cbn [decodificar_bits]. simpl. by rewrite (falta_hijo_caracter r Hr).
Qed.

Lemma descomprimir_Raise_falta_hijo cod raiz t0 t1 e :
  descomprimir cod raiz t0 t1 = Raise e ->
  exists r, raiz = Some r /\ falta_hijo r.
Proof.
  intros Hdesc.
  destruct cod as [|b cod]; [done|]. destruct raiz as [r|]; [|done].
  exists r. split; [done|].
  unfold descomprimir in Hdesc. destruct (caracter r) eqn:Hc; [done|].
  destruct (decodificar_bits r (b :: cod) r []) as [[n acc]|e'] eqn:Hdec; [done|].
  by destruct (decodificar_bits_falta_hijo _ _ _ _ _ Hc Hc Hdec).
Qed.

(** X11. The only exception [descomprimir] raises is [AttributeError], and
    there is an encoded text on which it raises exactly when the tree is
    present and some node of it without character, reached from the root
    through nodes without character, lacks a child. *)
Theorem descomprimir_error (raiz : option NodoHuffman) (t0 t1 : float64) :
  (forall cod e, descomprimir cod raiz t0 t1 = Raise e -> e = AttributeError)
  /\ ((exists cod e, descomprimir cod raiz t0 t1 = Raise e)
      <-> exists r, raiz = Some r /\ falta_hijo r).
Proof.
  split; [|split].
  - intros cod e Hdesc.
    destruct cod as [|b cod]; [done|]. destruct raiz as [r|]; [|done].
    unfold descomprimir in Hdesc. destruct (caracter r); [done|].
    destruct (decodificar_bits r (b :: cod) r []) as [[n acc]|e'] eqn:Hdec; [done|].
    rewrite !rbind_Raise in Hdesc. injection Hdesc as <-.
    by eapply decodificar_bits_solo_AttributeError.
  - intros (cod & e & Hdesc). by eapply descomprimir_Raise_falta_hijo.
  - intros (r & -> & Hr).
    destruct (falta_hijo_decodificar_bits r Hr r []) as (bit & bits & Hdec).
    exists (bit :: bits), AttributeError.
    unfold descomprimir. by rewrite (falta_hijo_caracter r Hr), Hdec.
Qed.

Lemma descomprimir_error_witness :
  descomprimir (texto_de "0") (Some (Nodo None 10 None None)) 0 1
  = Raise AttributeError
  /\ exists r, Some (Nodo None 10 None None) = Some r /\ falta_hijo r.
Proof.
  assert (descomprimir (texto_de "0") (Some (Nodo None 10 None None)) 0 1
          = Raise AttributeError) as Hdesc by reflexivity.
  split; [exact Hdesc|].
  apply (descomprimir_error (Some (Nodo None 10 None None)) 0 1).
  by exists (texto_de "0"), AttributeError.
Defined.

(** A tree that is not full on which [descomprimir] never raises: the node
    that lacks a child holds a character, so the decoder never looks below
    it. *)
Example descomprimir_arbol_incompleto :
  let r := Nodo None 2 (Some (Nodo (Some "a"%char) 1 (Some (nodo_hoja "x"%char 1)) None))
                (Some (nodo_hoja "b"%char 1)) in
  ~ completo r /\ ~ falta_hijo r
  /\ forall cod t0 t1, exists texto stats,
       descomprimir cod (Some r) t0 t1 = Ok (texto, stats).
Proof.
  intros r.
  assert (~ falta_hijo r) as Hno.
  { intros H. inversion H as [| |? ? ? Hl|? ? ? Hr]; subst.
    - inversion Hl.
    - inversion Hr. }
  split_and!; [|done|].
  - intros H. inversion H as [|? ? ? Hl ?]; subst. inversion Hl.
  - intros cod t0 t1.
    destruct (descomprimir cod (Some r) t0 t1) as [[texto stats]|e] eqn:Hdesc;
      [by eexists _, _|].
    destruct (descomprimir_Raise_falta_hijo _ _ _ _ _ Hdesc)
      as (r' & [= <-] & Hr'). done.
Qed.

(** ** Encoding and decoding with the tree of a table *)

(** The tree and the codes of a table with distinct characters. *)
Lemma arbol_de_tabla (frecuencias : dict ascii Z) (self : ArbolHuffman) :
  NoDup (dict_keys frecuencias) -> frecuencias ≠ [] ->
  exists r,
    construir_desde_frecuencias frecuencias self
    = (Ok tt, {| raiz := Some r; codigos := codigos self |})
    /\ generar_codigos {| raiz := Some r; codigos := codigos self |}
       = (Ok (codigos_arbol r), {| raiz := Some r; codigos := codigos_arbol r |})
    /\ completo r
    /\ forall c, c ∈ dict_keys frecuencias -> c ∈ hojas r.
Proof.
  intros Hnd Hne.
  destruct (construir_ok frecuencias Hne) as (r & Hcons & Hr & Hhojas).
  exists r. split_and!; [done| |done|].
  - apply generar_codigos_ok; [done|]. by rewrite Hhojas.
  - intros c Hc. by rewrite Hhojas.
Qed.

Lemma descomprimir_codificado_total r texto cod t0 t1 :
  completo r -> (forall c, c ∈ texto -> c ∈ hojas r) ->
  _codificar_texto texto (codigos_arbol r) = Ok cod ->
  exists stats, descomprimir cod (Some r) t0 t1 = Ok (texto, stats).
Proof.
  intros Hr Hin Hcod. destruct (decide (texto = [])) as [->|Hne].
  - injection Hcod as <-. by eexists.
  - destruct (descomprimir_codificado r texto cod t0 t1) as (stats & Hdesc & _);
      [done..|]. by exists stats.
Qed.

(** X12. With a table of distinct characters: building the tree, generating
    its codes, encoding any text written with the characters of the table
    (not only the text the table was counted from) and decoding the digits
    with the tree gives the text back. *)
Theorem ida_y_vuelta_con_tabla (frecuencias : dict ascii Z) (texto : str)
        (self : ArbolHuffman) (t0 t1 : float64) :
  NoDup (dict_keys frecuencias) -> frecuencias ≠ [] ->
  (forall c, c ∈ texto -> c ∈ dict_keys frecuencias) ->
  exists self1 cods self2 cod stats,
    construir_desde_frecuencias frecuencias self = (Ok tt, self1)
    /\ generar_codigos self1 = (Ok cods, self2)
    /\ _codificar_texto texto cods = Ok cod
    /\ descomprimir cod (raiz self2) t0 t1 = Ok (texto, stats).
Proof.
  intros Hnd Hne Hin.
  destruct (arbol_de_tabla frecuencias self Hnd Hne) as (r & Hcons & Hgen & Hr & Hkeys).
  destruct (_codificar_texto_ok texto (codigos_arbol r)) as (cod & Hcod).
  { intros c Hc. apply codigos_arbol_keys; [done|]. by apply Hkeys, Hin. }
  destruct (descomprimir_codificado_total r texto cod t0 t1) as (stats & Hdesc);
    [done | by intros c Hc; apply Hkeys, Hin | done |].
  by eexists _, _, _, cod, stats.
Qed.

Lemma ida_y_vuelta_con_tabla_witness :
  exists self1 cods self2 cod stats,
    construir_desde_frecuencias [("A"%char, 3); ("B"%char, 2); ("C"%char, 1)]
                                arbol_vacio = (Ok tt, self1)
    /\ generar_codigos self1 = (Ok cods, self2)
    /\ _codificar_texto (texto_de "CABBA") cods = Ok cod
    /\ descomprimir cod (raiz self2) 0 1 = Ok (texto_de "CABBA", stats).
Proof.
  apply (ida_y_vuelta_con_tabla [("A"%char, 3); ("B"%char, 2); ("C"%char, 1)]
                                (texto_de "CABBA") arbol_vacio 0 1).
  - apply (bool_decide_unpack _). by vm_compute.
  - done.
  - intros c Hc. apply (bool_decide_unpack _).
    apply list_elem_of_In in Hc. simpl in Hc.
    destruct Hc as [<-|[<-|[<-|[<-|[<-|[]]]]]]; by vm_compute.
Defined.

(** X13. With the codes of the tree of a table of distinct characters, two
    texts written with the characters of the table that are encoded to the
    same digits are the same text. *)
Theorem codificacion_inyectiva (frecuencias : dict ascii Z) (self : ArbolHuffman)
        (texto1 texto2 : str) :
  NoDup (dict_keys frecuencias) -> frecuencias ≠ [] ->
  (forall c, c ∈ texto1 -> c ∈ dict_keys frecuencias) ->
  (forall c, c ∈ texto2 -> c ∈ dict_keys frecuencias) ->
  exists self1 cods self2,
    construir_desde_frecuencias frecuencias self = (Ok tt, self1)
    /\ generar_codigos self1 = (Ok cods, self2)
    /\ (_codificar_texto texto1 cods = _codificar_texto texto2 cods ->
        texto1 = texto2).
Proof.
  intros Hnd Hne Hin1 Hin2.
  destruct (arbol_de_tabla frecuencias self Hnd Hne) as (r & Hcons & Hgen & Hr & Hkeys).
  eexists _, _, _. split_and!; [done..|].
  destruct (_codificar_texto_ok texto1 (codigos_arbol r)) as (cod & Hcod1).
  { intros c Hc. apply codigos_arbol_keys; [done|]. by apply Hkeys, Hin1. }
  rewrite Hcod1. intros Hcod2. symmetry in Hcod2.
  destruct (descomprimir_codificado_total r texto1 cod 0 0) as (s1 & Hd1);
    [done | by intros c Hc; apply Hkeys, Hin1 | done |].
  destruct (descomprimir_codificado_total r texto2 cod 0 0) as (s2 & Hd2);
    [done | by intros c Hc; apply Hkeys, Hin2 | done |].
  rewrite Hd1 in Hd2. by injection Hd2.
Qed.

Lemma codificacion_inyectiva_witness :
  exists self1 cods self2,
    construir_desde_frecuencias [("A"%char, 3); ("B"%char, 2); ("C"%char, 1)]
                                arbol_vacio = (Ok tt, self1)
    /\ generar_codigos self1 = (Ok cods, self2)
    /\ (_codificar_texto (texto_de "AB") cods = _codificar_texto (texto_de "AB") cods ->
        texto_de "AB" = texto_de "AB").
Proof.
  apply (codificacion_inyectiva [("A"%char, 3); ("B"%char, 2); ("C"%char, 1)]
                                arbol_vacio (texto_de "AB") (texto_de "AB")).
  - apply (bool_decide_unpack _). by vm_compute.
  - done.
  - intros c Hc. apply (bool_decide_unpack _).
    apply list_elem_of_In in Hc. simpl in Hc.
    destruct Hc as [<-|[<-|[]]]; by vm_compute.
  - intros c Hc. apply (bool_decide_unpack _).
    apply list_elem_of_In in Hc. simpl in Hc.
    destruct Hc as [<-|[<-|[]]]; by vm_compute.
Defined.

(** X14. Encoding distributes over the concatenation of texts: the digits
    of [texto1 ++ texto2] are the digits of [texto1] followed by those of
    [texto2], and the call raises when one of the two does, the first
    exception winning. *)
Theorem _codificar_texto_concatenacion (texto1 texto2 : str)
        (codigos : dict ascii str) :
  _codificar_texto (texto1 ++ texto2) codigos
  = (cod1 ← _codificar_texto texto1 codigos;
     cod2 ← _codificar_texto texto2 codigos;
     Ok (cod1 ++ cod2)).
Proof.
  induction texto1 as [|a texto1 IH]; cbn [app _codificar_texto].
  - rewrite rbind_Ok. by destruct (_codificar_texto texto2 codigos).
  - destruct (dict_item codigos a) as [w|e]; [|done]. rewrite !rbind_Ok, IH.
    destruct (_codificar_texto texto1 codigos) as [cod1|e]; [|done].
    rewrite !rbind_Ok.
    destruct (_codificar_texto texto2 codigos) as [cod2|e]; [|done].
    rewrite !rbind_Ok. by rewrite (assoc (++)).
Qed.

Lemma decodificar_bits_longitud raiz bits : forall n acc n' acc',
  decodificar_bits raiz bits n acc = Ok (n', acc') ->
  (length acc' <= length acc + length bits)%nat.
Proof.
  induction bits as [|bit bits IH]; intros n acc n' acc'; cbn [decodificar_bits].
  - intros [= <- <-]. lia.
  - destruct (if decide (bit = "0"%char) then izquierdo n else derecho n)
      as [m|]; [|done].
    destruct (caracter m); intros Hdec%IH; [rewrite length_app in Hdec|];
      simpl in *; lia.
Qed.

(** X15. Whenever [descomprimir] returns, the text has at most as many
    characters as there were digits; and when the digits are not empty and
    the tree is present, the entry [longitud_decodificada] of the statistics
    is the length of the text returned. *)
Theorem descomprimir_longitud (cod : str) (raiz : option NodoHuffman) (t0 t1 : float64)
        (texto : str) (stats : dict string Valor) :
  descomprimir cod raiz t0 t1 = Ok (texto, stats) ->
  (length texto <= length cod)%nat
  /\ (cod ≠ [] -> raiz ≠ None ->
      dict_get stats "longitud_decodificada"
      = Some (VInt (Z.of_nat (length texto)))).
Proof.
  unfold descomprimir. destruct cod as [|b cod].
  { intros [= <- <-]. split; [done|]. by intros []. }
  destruct raiz as [r|].
  2:{ intros [= <- <-]. split; [simpl; lia|]. by intros _ []. }
  destruct (caracter r) as [c|].
  - rewrite rbind_Ok. intros [= <- <-]. split; [|done].
    simpl. rewrite repeat_length. lia.
  - destruct (decodificar_bits r (b :: cod) r []) as [[n acc]|] eqn:Hdec.
    + rewrite !rbind_Ok. intros [= <- <-]. split; [|done].
      by apply decodificar_bits_longitud in Hdec.
    + by rewrite !rbind_Raise.
Qed.

Lemma descomprimir_longitud_witness :
  descomprimir (texto_de "011")
    (Some (nodo_padre 2 (nodo_hoja "A" 1) (nodo_hoja "B" 1))) 0 1
  = Ok (texto_de "ABB",
        [ ("tiempo_descompresion", VFloat (1 - 0));
          ("longitud_decodificada", VInt 3); ("exito", VBool true) ])
  /\ (length (texto_de "ABB") <= length (texto_de "011"))%nat.
Proof.
  assert (descomprimir (texto_de "011")
            (Some (nodo_padre 2 (nodo_hoja "A" 1) (nodo_hoja "B" 1))) 0 1
          = Ok (texto_de "ABB",
                [ ("tiempo_descompresion", VFloat (1 - 0));
                  ("longitud_decodificada", VInt 3); ("exito", VBool true) ]))
    as Hdesc by reflexivity.
  split; [exact Hdesc|].
  exact (proj1 (descomprimir_longitud _ _ _ _ _ _ Hdesc)).
Defined.

(** ** [obtener_eficiencia] *)

Lemma dict_set_no_nil {K V} `{EqDecision K} (d : dict K V) k v : dict_set d k v ≠ [].
Proof. destruct d as [|[k' v'] d]; simpl; [done|]. by destruct (decide (k' = k)). Qed.

Lemma dict_update_no_nil {K V} `{EqDecision K} (d e : dict K V) :
  d ≠ [] -> dict_update d e ≠ [].
Proof.
  unfold dict_update. revert d. induction e as [|[k v] e IH]; intros d Hd; simpl; [done|].
  apply IH, dict_set_no_nil.
Qed.

Lemma obtener_eficiencia_no_vacio self :
  estadisticas self ≠ [] ->
  obtener_eficiencia self
  = let practica :=
      valor_entre (default (VInt 0) (dict_get (estadisticas self) "tasa_compresion"))
                  100 in
    [ ("entropia_shannon", VFloat 0);
      ("eficiencia_teorica", VInt 0);
      ("eficiencia_practica", VFloat practica);
      ("diferencia_eficiencia", VFloat (fabs (0 - practica))) ].
Proof.
  intros Hne. unfold obtener_eficiencia.
  destruct (estadisticas self) as [|e es] eqn:Hes; [done|]. reflexivity.
Qed.

(** Zero minus a float has the absolute value of the float. *)
Lemma fabs_cero_menos (x : float64) : fabs (0 - x) = fabs x.
Proof. by destruct x as [[]|[]| |[] m e]. Qed.

(** X16. [obtener_eficiencia] returns the empty dictionary on a new
    compressor. After [comprimir] on a non-empty text of [n] characters
    encoded in [m] digits it reports the entropy [0.0] of the placeholder,
    the theoretical efficiency [0], as practical efficiency the entry
    [tasa_compresion] of the statistics divided by [100], that is the double
    [((8 n - m) / (8 n) * 100) / 100] with each operation rounded, and as
    their difference the absolute value of the latter. After [comprimir] on
    the empty text it answers as before that call, since the statistics kept
    are not replaced. *)
Theorem obtener_eficiencia_tras_comprimir (texto : str) (t0 t1 : float64)
        (self : CompresorHuffman) :
  obtener_eficiencia compresor_nuevo = []
  /\ obtener_eficiencia (comprimir [] t0 t1 self).2 = obtener_eficiencia self
  /\ (texto ≠ [] ->
      exists cod codigos raiz stats self' tasa,
        comprimir texto t0 t1 self = (Ok (cod, codigos, raiz, stats), self')
        /\ dict_get stats "tasa_compresion" = Some (VFloat tasa)
        /\ tasa = (div_enteros (8 * Z.of_nat (length texto) - Z.of_nat (length cod))
                               (8 * Z.of_nat (length texto)) * float_de_Z 100)%float64
        /\ obtener_eficiencia self'
           = [ ("entropia_shannon", VFloat 0);
               ("eficiencia_teorica", VInt 0);
               ("eficiencia_practica", VFloat (tasa / float_de_Z 100));
               ("diferencia_eficiencia", VFloat (fabs (tasa / float_de_Z 100))) ]).
Proof.
  split_and!; [done..|]. intros Hne.
  destruct (comprimir_ok texto Hne) as (r & cod & Hr & Hhojas & Hcod & Hcomp).
  assert (dict_get (estadisticas_de texto cod r t0 t1) "tasa_compresion"
          = Some (VFloat (div_enteros (8 * Z.of_nat (length texto) - Z.of_nat (length cod))
                                      (8 * Z.of_nat (length texto)) * float_de_Z 100)))
    as Htasa.
  { rewrite estadisticas_de_get by (apply (bool_decide_unpack _); by vm_compute).
    rewrite (_generar_estadisticas_no_vacio texto cod _ Hne).
    rewrite (Z.mul_comm (Z.of_nat (length texto)) 8). reflexivity. }
  eexists cod, _, _, _, _, _. split; [by rewrite Hcomp|].
  split; [exact Htasa|]. split; [reflexivity|].
  rewrite obtener_eficiencia_no_vacio.
  2:{ cbn [estadisticas]. unfold estadisticas_de. apply dict_update_no_nil.
      by destruct texto. }
  cbn [estadisticas]. cbv zeta. rewrite Htasa.
  cbn [default from_option id valor_entre]. by rewrite fabs_cero_menos.
Qed.

(** ** The callers *)

Lemma max_desde_spec items : forall mejor,
  max_desde mejor items ∈ mejor :: items
  /\ forall x, x ∈ mejor :: items -> x.2 <= (max_desde mejor items).2.
Proof.
  induction items as [|y items IH]; intros mejor; cbn [max_desde].
  - split; [left|]. by intros x ->%list_elem_of_singleton.
  - destruct (Z.ltb_spec mejor.2 y.2) as [Hlt|Hge].
    + destruct (IH y) as [Hin Hmax]. split; [by right|].
      intros x [->|Hx]%elem_of_cons; [|by apply Hmax].
      specialize (Hmax y (list_elem_of_here _ _)). lia.
    + destruct (IH mejor) as [Hin Hmax]. split.
      * apply elem_of_cons in Hin as [->|Hin]; [left | by do 2 right].
      * intros x [->|[->|Hx]%elem_of_cons]%elem_of_cons.
        -- apply Hmax. left.
        -- specialize (Hmax mejor (list_elem_of_here _ _)). lia.
        -- apply Hmax. by right.
Qed.

Lemma min_desde_spec items : forall mejor,
  min_desde mejor items ∈ mejor :: items
  /\ forall x, x ∈ mejor :: items -> (min_desde mejor items).2 <= x.2.
Proof.
  induction items as [|y items IH]; intros mejor; cbn [min_desde].
  - split; [left|]. by intros x ->%list_elem_of_singleton.
  - destruct (Z.ltb_spec y.2 mejor.2) as [Hlt|Hge].
    + destruct (IH y) as [Hin Hmin]. split; [by right|].
      intros x [->|Hx]%elem_of_cons; [|by apply Hmin].
      specialize (Hmin y (list_elem_of_here _ _)). lia.
    + destruct (IH mejor) as [Hin Hmin]. split.
      * apply elem_of_cons in Hin as [->|Hin]; [left | by do 2 right].
      * intros x [->|[->|Hx]%elem_of_cons]%elem_of_cons.
        -- apply Hmin. left.
        -- specialize (Hmin mejor (list_elem_of_here _ _)). lia.
        -- apply Hmin. by right.
Qed.

Lemma dict_get_elem_of_NoDup {K V} `{EqDecision K} (d : dict K V) k v :
  NoDup (dict_keys d) -> (k, v) ∈ d -> dict_get d k = Some v.
Proof.
  unfold dict_keys. induction d as [|[k' v'] d IH]; csimpl.
  - by intros _ ?%elem_of_nil.
  - intros [Hnin Hnd]%NoDup_cons [[= -> ->]|Hin]%elem_of_cons.
    + by rewrite decide_True.
    + rewrite decide_False; [by apply IH|]. intros ->. apply Hnin.
      apply list_elem_of_fmap. by exists (k, v).
Qed.

(** An entry of the table of a text is a character of the text with the
    number of its occurrences, and every character of the text has one. *)
Lemma Counter_entradas texto c n :
  (c, n) ∈ Counter texto <-> c ∈ texto /\ n = apariciones c texto.
Proof.
  destruct (Counter_keys texto) as [Hnd Hkeys].
  pose proof (Counter_fold_get texto [] c) as Hget. cbn [dict_get] in Hget.
  fold (Counter texto) in Hget. split.
  - intros Hin. apply (dict_get_elem_of_NoDup _ _ _ Hnd) in Hin.
    rewrite Hget in Hin. revert Hin.
    destruct (decide _); simpl; [|done]. by intros [= <-].
  - intros [Hc ->]. apply dict_get_Some. rewrite Hget. by rewrite decide_True.
Qed.

(** X17. [_generar_analisis_json] raises [ValueError] on the empty text
    (its table is empty and [max] has nothing to choose from). On any other
    text it returns the table of the text, the number of different
    characters, a character with the greatest number of occurrences and a
    character with the least, each with that number. *)
Theorem _generar_analisis_json_distribucion (estadisticas : dict string Valor)
        (codigos : dict ascii str) (texto : str) :
  (texto = [] ->
   _generar_analisis_json estadisticas codigos texto = Raise ValueError)
  /\ (texto ≠ [] ->
      exists an,
        _generar_analisis_json estadisticas codigos texto
        = Ok (estadisticas, codigos, calcular_frecuencias texto, an)
        /\ caracteres_unicos an = Z.of_nat (length (primeras_apariciones texto))
        /\ (caracter_mas_frecuente an).1 ∈ texto
        /\ (caracter_mas_frecuente an).2
           = apariciones (caracter_mas_frecuente an).1 texto
        /\ (caracter_menos_frecuente an).1 ∈ texto
        /\ (caracter_menos_frecuente an).2
           = apariciones (caracter_menos_frecuente an).1 texto
        /\ forall c, c ∈ texto ->
                     (caracter_menos_frecuente an).2 <= apariciones c texto
                     <= (caracter_mas_frecuente an).2).
Proof.
  split; [by intros ->|]. intros Hne.
  assert (calcular_frecuencias texto = Counter texto) as Hcf by (by destruct texto).
  unfold _generar_analisis_json. rewrite Hcf.
  pose proof (Counter_no_vacio texto Hne) as Hcne.
  destruct (Counter texto) as [|x items] eqn:Hcounter; [done|].
  cbn [py_max py_min]. rewrite !rbind_Ok. eexists. split; [done|].
  cbn [caracteres_unicos caracter_mas_frecuente caracter_menos_frecuente].
  destruct (max_desde_spec items x) as [Hmaxin Hmax].
  destruct (min_desde_spec items x) as [Hminin Hmin].
  rewrite <- Hcounter in Hmaxin, Hminin, Hmax, Hmin |- *.
  destruct (max_desde x items) as [cmax nmax].
  destruct (min_desde x items) as [cmin nmin].
  apply Counter_entradas in Hmaxin as [Hmaxc ->].
  apply Counter_entradas in Hminin as [Hminc ->].
  split_and!; [|done..|].
  - f_equal. rewrite <- (Counter_orden texto).
    unfold dict_keys. by rewrite length_fmap.
  - intros c Hc.
    assert ((c, apariciones c texto) ∈ Counter texto) as Hin
      by (by apply Counter_entradas).
    split; [exact (Hmin _ Hin) | exact (Hmax _ Hin)].
Qed.

(** X18. On a non-empty text [comprimir] returns an encoded text that is
    not empty, a code book that is not empty and a tree that is present, so
    the three are true in the test [if texto_codificado and codigos and
    arbol]; and [verificar_instalacion], which makes that test on the text
    [test], returns [True]. *)
Theorem comprimir_resultados_ciertos (texto : str) (t0 t1 : float64)
        (self : CompresorHuffman) :
  (texto ≠ [] ->
   exists cod codigos r stats self',
     comprimir texto t0 t1 self = (Ok (cod, codigos, Some r, stats), self')
     /\ cod ≠ [] /\ codigos ≠ [])
  /\ verificar_instalacion t0 t1 = true.
Proof.
  assert (forall texto' self0, texto' ≠ [] ->
            exists cod codigos r stats self',
              comprimir texto' t0 t1 self0 = (Ok (cod, codigos, Some r, stats), self')
              /\ cod ≠ [] /\ codigos ≠ []) as Hgen.
  { intros texto' self0 Hne.
    destruct (comprimir_ok texto' Hne) as (r & cod & Hr & Hhojas & Hcod & Hcomp).
    eexists cod, _, r, _, _. split_and!; [by rewrite Hcomp| |].
    - intros ->.
      pose proof (_codificar_texto_length texto' _ [] Hcod
                    (fun c w => codigos_arbol_no_vacio r c w Hr)) as Hlen.
      destruct texto'; [done|]. simpl in Hlen. lia.
    - unfold codigos_arbol. destruct (caracter r); [done|].
      by apply codigos_de_no_nil. }
  split; [apply Hgen|].
  unfold verificar_instalacion.
  destruct (Hgen (String.list_ascii_of_string "test") compresor_nuevo)
    as (cod & codigos & r & stats & self' & -> & Hcod & Hcods); [done|].
  cbn [fst]. by destruct cod, codigos.
Qed.

(** X19. The demonstration of the command line compresses a text,
    decompresses the result and validates it: for every text and every state
    of its compressor it never raises and [integridad_ok] is [True]. *)
Theorem _ejecutar_demo_individual_integridad (texto : str) (t0 t1 t2 t3 : float64)
        (self : CompresorHuffman) :
  exists self', _ejecutar_demo_individual texto t0 t1 t2 t3 self = (Ok true, self').
Proof.
  unfold _ejecutar_demo_individual, mbind, M_bind, mbindM, mlift, mret.
  destruct (decide (texto = [])) as [->|Hne].
  - exists self. reflexivity.
  - destruct (comprimir_ok texto Hne) as (r & cod & Hr & Hhojas & Hcod & Hcomp).
    destruct (descomprimir_codificado r texto cod t2 t3) as (stats' & Hdesc & _);
      [done | done | by apply texto_en_hojas | done |].
    rewrite Hcomp, Hdesc. eexists. unfold validar_integridad.
    by rewrite bool_decide_eq_true_2.
Qed.

(** X20. [construir_desde_frecuencias] replaces the root and leaves the
    codes of the object as they were: until [generar_codigos] is called,
    the average code length that [obtener_estadisticas] reports is that of
    the codes held before, [0.0] on a new object. *)
Theorem construir_no_toca_los_codigos (frecuencias : dict ascii Z)
        (self : ArbolHuffman) :
  frecuencias ≠ [] ->
  exists self',
    construir_desde_frecuencias frecuencias self = (Ok tt, self')
    /\ codigos self' = codigos self
    /\ dict_get (obtener_estadisticas self') "longitud_promedio_codigo"
       = Some (_calcular_longitud_promedio self)
    /\ (codigos self = [] ->
        dict_get (obtener_estadisticas self') "longitud_promedio_codigo"
        = Some (VFloat 0)).
Proof.
  intros Hne. destruct (construir_ok frecuencias Hne) as (r & Hcons & _).
  eexists. split; [by rewrite Hcons|]. split_and!; [done..|].
  intros Hvacio. unfold obtener_estadisticas, _calcular_longitud_promedio.
  cbn [raiz codigos dict_get]. by rewrite Hvacio.
Qed.

Lemma construir_no_toca_los_codigos_witness :
  exists self',
    construir_desde_frecuencias
      [("A"%char, 4); ("B"%char, 2); ("C"%char, 1); ("D"%char, 1)] arbol_vacio
    = (Ok tt, self')
    /\ codigos self' = codigos arbol_vacio
    /\ dict_get (obtener_estadisticas self') "longitud_promedio_codigo"
       = Some (_calcular_longitud_promedio arbol_vacio)
    /\ (codigos arbol_vacio = [] ->
        dict_get (obtener_estadisticas self') "longitud_promedio_codigo"
        = Some (VFloat 0)).
Proof.
  apply (construir_no_toca_los_codigos
           [("A"%char, 4); ("B"%char, 2); ("C"%char, 1); ("D"%char, 1)] arbol_vacio).
  done.
Defined.

(** The analysis and the efficiency on the mixed-frequency text. *)
Example ejemplo_analisis_AABBC :
  _generar_analisis_json [] [] (texto_de "AABBC")
  = Ok ([], [], [("A"%char, 2); ("B"%char, 2); ("C"%char, 1)],
        {| caracteres_unicos := 3;
           caracter_mas_frecuente := ("A"%char, 2);
           caracter_menos_frecuente := ("C"%char, 1) |}).
Proof. reflexivity. Qed.

Example ejemplo_eficiencia_AABBC :
  obtener_eficiencia (comprimir (texto_de "AABBC") 0 1 compresor_nuevo).2
  = [ ("entropia_shannon", VFloat 0);
      ("eficiencia_teorica", VInt 0);
      ("eficiencia_practica", VFloat (S754_finite false 7205759403792794 (-53)));
      ("diferencia_eficiencia", VFloat (S754_finite false 7205759403792794 (-53))) ].
Proof. vm_compute. reflexivity. Qed.

(** On the text "ABC" the rate is the double 79.16666666666666, the factor
    4.8 and the practical efficiency 0.7916666666666665, written here with
    mantissa and exponent. *)
Example ejemplo_estadisticas_ABC :
  let self' := (comprimir (texto_de "ABC") 0 1 compresor_nuevo).2 in
  dict_get (estadisticas self') "tasa_compresion"
  = Some (VFloat (S754_finite false 5570858914065066 (-46)))
  /\ dict_get (estadisticas self') "factor_compresion"
     = Some (VFloat (S754_finite false 5404319552844595 (-50)))
  /\ dict_get (obtener_eficiencia self') "eficiencia_practica"
     = Some (VFloat (S754_finite false 7130699410003284 (-53)))
  /\ div_enteros 19 24 = S754_finite false 7130699410003285 (-53).
Proof. vm_compute. by split_and!. Qed.
